(** * The linear arena, the bounded path builder and the directory walk

    A shallow embedding of [main.cc] and [main.cpp].  The two files hold the
    same program; they differ in names ([linear_arena_push_size] / [alloc],
    [string_builder_push] / [push_path]) and in the alignment granularity of
    the arena ([sizeof(void * )] in [main.cc], [2 * sizeof(void * )] in
    [main.cpp]).  The embedding keeps the names of [main.cpp] and gives the
    names of [main.cc] as specialisations.

    The target is 64-bit Windows: [size_t] and pointers are 64 bits wide.
    [size_t] values are integers in [0, 2^64) and every [size_t] operation
    of the source is written with its reduction modulo [2^64]. *)

From Stdlib Require Import ZArith Lia Ascii String List.
From stdpp Require Import gmap list.

Local Open Scope Z_scope.

(** ** [size_t] arithmetic *)

Definition SIZE_WIDTH : Z := 64.
Definition wrap (z : Z) : Z := z mod 2 ^ SIZE_WIDTH.

Definition size_add (a b : Z) : Z := wrap (a + b).
Definition size_sub (a b : Z) : Z := wrap (a - b).
Definition size_mul (a b : Z) : Z := wrap (a * b).
Definition size_not (a : Z) : Z := wrap (Z.lnot a).

Definition is_size_t (z : Z) : Prop := 0 <= z < 2 ^ SIZE_WIDTH.

(** [sizeof(void * )] on the 64-bit target. *)
Definition sizeof_ptr : Z := 8.

(** Which of the two source files is meant. *)
Inductive variant : Type := main_cc | main_cpp.

(** The second argument of [NEXT_MULTIPLE] in the allocation routine:
    [sizeof(void * )] in [main.cc], [2 * sizeof(void * )] in [main.cpp]. *)
Definition alignment (v : variant) : Z :=
  match v with
  | main_cc => sizeof_ptr
  | main_cpp => size_mul 2 sizeof_ptr
  end.

(** ** The three macros *)

(** [#define CLAMP_TOP(val, max) ((val) > (max) ? (max) : (val))] *)
Definition CLAMP_TOP (val max : Z) : Z := if val >? max then max else val.

(** [#define MAX(a, b) ((a) > (b) ? (a) : (b))] *)
Definition MAX (a b : Z) : Z := if a >? b then a else b.

(** [#define NEXT_MULTIPLE(num, base) (((num) + ((base) - 1)) & ~((base) - 1))]
    with every operand converted to [size_t], as C does when [num] is a
    [size_t]: the complement is a 64-bit complement. *)
Definition NEXT_MULTIPLE (num base : Z) : Z :=
  Z.land (size_add num (size_sub base 1)) (size_not (size_sub base 1)).

(** ** The arena *)

Module Arena.

Record LinearArena : Type := {
  base : Z;        (* uint8_t *base: address of the reserved range, 0 when the reservation failed *)
  used : Z;        (* size_t *)
  committed : Z;   (* size_t *)
  reserved : Z     (* size_t *)
}.

Definition set_committed (c : Z) (a : LinearArena) : LinearArena :=
  {| base := base a; used := used a; committed := c; reserved := reserved a |}.

Definition set_used (u : Z) (a : LinearArena) : LinearArena :=
  {| base := base a; used := u; committed := committed a; reserved := reserved a |}.

(** [make] / [linear_arena_create].  [region] is what the host's
    [VirtualAlloc(NULL, reserve_size, MEM_RESERVE, ...)] returned. *)
Definition make (region : Z) (reserve_size : Z) : LinearArena :=
  {| base := region; used := 0; committed := 0; reserved := reserve_size |}.

(** What [alloc] returns.  The source returns a pointer and has two
    [return NULL] sites; the embedding keeps the two sites apart and
    [ptr_of] gives the pointer value the caller sees. *)
Inductive alloc_result : Type :=
| OutOfReservedSpace            (* return NULL at the [used >= reserved] test *)
| CommitFailed                  (* return NULL after the failed commit *)
| Block (mem : Z).              (* return mem *)

Definition NULL : Z := 0.

Definition ptr_of (r : alloc_result) : Z :=
  match r with
  | Block mem => mem
  | OutOfReservedSpace | CommitFailed => NULL
  end.

Definition is_block (r : alloc_result) : bool :=
  match r with Block _ => true | _ => false end.

(** [alloc] / [linear_arena_push_size].  [VirtualAlloc_commit b n] is the
    answer of the host to [VirtualAlloc(b, n, MEM_COMMIT, PAGE_READWRITE)]:
    [true] when the returned pointer is not null.  The returned address
    [&arena->base[arena->used]] is the address [base + used]; addresses
    are integers and the address computation is not reduced modulo
    [2^64]. *)
Definition alloc (v : variant) (VirtualAlloc_commit : Z -> Z -> bool)
           (arena : LinearArena) (size : Z) : alloc_result * LinearArena :=
  if used arena >=? reserved arena then (OutOfReservedSpace, arena)
  else
    let aligned_size := NEXT_MULTIPLE size (alignment v) in
    let after_commit :=
      if size_add (used arena) aligned_size >? committed arena then
        let page_aligned_size := NEXT_MULTIPLE aligned_size 4096 in
        let commit_size :=
          CLAMP_TOP (size_add (committed arena) (MAX page_aligned_size (100 * 4096)))
                    (reserved arena) in
        if VirtualAlloc_commit (base arena) commit_size
        then Some (set_committed commit_size arena)
        else None
      else Some arena in
    match after_commit with
    | None => (CommitFailed, arena)
    | Some arena1 =>
        let mem := base arena1 + used arena1 in
        (Block mem, set_used (size_add (used arena1) aligned_size) arena1)
    end.

(** The names of [main.cc]. *)
Definition linear_arena_create := make.
Definition linear_arena_push_size := alloc main_cc.

(** One call as it is made: the host's answer at the time of the call
    and the requested size. *)
Record call : Type := { host : Z -> Z -> bool; size : Z }.

(** One executed call: the arena before, the request, the result and
    the arena after. *)
Record step : Type := {
  before : LinearArena;
  request : Z;
  result : alloc_result;
  after : LinearArena
}.

(** A sequence of [alloc] calls on one arena. *)
Fixpoint run (v : variant) (a : LinearArena) (calls : list call) : list step :=
  match calls with
  | [] => []
  | c :: calls' =>
      let ra := alloc v (host c) a (size c) in
      {| before := a; request := size c; result := fst ra; after := snd ra |}
        :: run v (snd ra) calls'
  end.

(** The states an arena can be in: made by [make], then any calls. *)
Inductive reachable (v : variant) : LinearArena -> Prop :=
| reachable_make region reserve_size :
    is_size_t reserve_size -> reachable v (make region reserve_size)
| reachable_alloc a h n :
    reachable v a -> is_size_t n -> reachable v (snd (alloc v h a n)).

(** The size a request consumes, as the code computes it. *)
Definition aligned_size (v : variant) (size : Z) : Z :=
  NEXT_MULTIPLE size (alignment v).

(** The block handed out by a successful step. *)
Definition block_start (s : step) : Z := ptr_of (result s).
Definition block_end (v : variant) (s : step) : Z :=
  ptr_of (result s) + aligned_size v (request s).

(** No address lies in the blocks of both steps. *)
Definition disjoint_blocks (v : variant) (s1 s2 : step) : Prop :=
  forall x, ~ (block_start s1 <= x < block_end v s1 /\
               block_start s2 <= x < block_end v s2).

(** The three counters hold [size_t] values. *)
Definition well_typed (a : LinearArena) : Prop :=
  is_size_t (used a) /\ is_size_t (committed a) /\ is_size_t (reserved a).

(** Every call of the sequence returned a block. *)
Definition all_succeeded (tr : list step) : Prop :=
  Forall (fun s => is_block (result s) = true) tr.

(** In no call of the sequence does [used + aligned_size] leave the
    range of [size_t]. *)
Definition no_wrap (v : variant) (tr : list step) : Prop :=
  Forall (fun s => used (before s) + aligned_size v (request s) < 2 ^ 64) tr.

(** A call whose host grants every commit. *)
Definition granted (n : Z) : call := {| host := fun _ _ => true; size := n |}.

End Arena.

(** ** C strings and outcomes *)

Definition NUL : ascii := Ascii.zero.

(** The bytes of a C string: what precedes its first terminator. *)
Fixpoint c_bytes (s : list ascii) : list ascii :=
  match s with
  | [] => []
  | c :: s' => if Ascii.eqb c NUL then [] else c :: c_bytes s'
  end.

Definition strlen (s : list ascii) : Z := Z.of_nat (length (c_bytes s)).

(** [strcmp(a, b) == 0] *)
Definition strcmp_eq (a b : list ascii) : bool :=
  if decide (c_bytes a = c_bytes b) then true else false.

(** A string literal of the source, without its terminator. *)
Definition lit (s : string) : list ascii := list_ascii_of_string s.

(** How a run of the program can stop short of returning. *)
Inductive fault : Type :=
| PathTooLong          (* "error: no more space left", exit(EXIT_FAILURE) *)
| BufferOverrun        (* a store outside [PathBuilder::buffer] *)
| NullWrite            (* a store through the null pointer *)
| NullRead             (* a load through the null pointer *)
| WildRead             (* a load through a pointer to no node *)
| NoFindData           (* [find_data] read although the host filled in nothing *)
| Diverges.            (* the tail walk follows a cyclic list *)

Inductive outcome (A : Type) : Type :=
| Done (a : A)
| Stop (f : fault).
Arguments Done {A} a.
Arguments Stop {A} f.

#[global] Instance outcome_ret : MRet outcome := fun _ a => Done a.
#[global] Instance outcome_bind : MBind outcome := fun _ _ f m =>
  match m with
  | Done a => f a
  | Stop e => Stop e
  end.

(** ** The path builder *)

Definition MAX_PATH : Z := 260.             (* MAX_STRING_LENGTH in main.cc *)

Module Path.

Record PathBuilder : Type := {
  buffer : list ascii;    (* char buffer[MAX_PATH] *)
  used : Z                (* size_t *)
}.

(** [PathBuilder pattern = {};] *)
Definition zeroed : PathBuilder :=
  {| buffer := repeat NUL (Z.to_nat MAX_PATH); used := 0 |}.

(** [reset_path]; [pattern.used = 0] where the source writes it out. *)
Definition reset_path (pb : PathBuilder) : PathBuilder :=
  {| buffer := buffer pb; used := 0 |}.

(** [memcpy(dst + off, src, n)] into an array: defined when the [n]
    bytes lie inside the array. *)
Definition memcpy (dst : list ascii) (off : Z) (src : list ascii) (n : Z)
  : option (list ascii) :=
  if (0 <=? off) && (off + n <=? Z.of_nat (length dst)) then
    Some (firstn (Z.to_nat off) dst ++ firstn (Z.to_nat n) src
            ++ skipn (Z.to_nat (off + n)) dst)
  else None.

(** [dst[i] = c] on an array: defined when [i] is an index of it. *)
Definition store (dst : list ascii) (i : Z) (c : ascii) : option (list ascii) :=
  if (0 <=? i) && (i <? Z.of_nat (length dst)) then
    Some (<[Z.to_nat i := c]> dst)
  else None.

(** [push_path] / [string_builder_push]. *)
Definition push_path (pb : PathBuilder) (str : list ascii) : outcome PathBuilder :=
  let length := strlen str in
  if size_add length 1 >=? MAX_PATH then Stop PathTooLong
  else
    match memcpy (buffer pb) (used pb) str length with
    | None => Stop BufferOverrun
    | Some buffer1 =>
        match store buffer1 (size_add (used pb) length) NUL with
        | None => Stop BufferOverrun
        | Some buffer2 =>
            Done {| buffer := buffer2; used := size_add (used pb) length |}
        end
    end.

Definition string_builder_push := push_path.

(** A sequence of appends, stopping at the first one that does not return. *)
Fixpoint push_all (pb : PathBuilder) (strs : list (list ascii)) : outcome PathBuilder :=
  match strs with
  | [] => Done pb
  | s :: strs' => pb' ← push_path pb s; push_all pb' strs'
  end.

(** The array has its declared size. *)
Definition well_sized (pb : PathBuilder) : Prop :=
  Z.of_nat (length (buffer pb)) = MAX_PATH.

End Path.

(** ** List nodes in memory *)

(** [sizeof(FileName)] on the 64-bit target: two 8-byte fields and the
    one-byte array, padded to the alignment of the struct. *)
Definition sizeof_FileName : Z := 24.
Definition offsetof_name : Z := 16.
Definition sizeof_char : Z := 1.
Definition FILE_ATTRIBUTE_DIRECTORY : Z := 16.

Module Node.

Record FileName : Type := {
  length : Z;             (* size_t length *)
  next : Z;               (* FileName *next, 0 for NULL *)
  name : list ascii       (* the bytes stored from [name] on *)
}.

(** Memory no store has reached yet. *)
Definition blank : FileName := {| length := 0; next := 0; name := [] |}.

Definition set_length (x : Z) (n : FileName) : FileName :=
  {| length := x; next := next n; name := name n |}.
Definition set_next (x : Z) (n : FileName) : FileName :=
  {| length := length n; next := x; name := name n |}.
Definition set_name (x : list ascii) (n : FileName) : FileName :=
  {| length := length n; next := next n; name := x |}.

End Node.

(** The address just past the node at [p]: past the struct and past the
    bytes stored from [name] on. *)
Definition node_end (p : Z) (n : Node.FileName) : Z :=
  p + Z.max sizeof_FileName (offsetof_name + Z.of_nat (length (Node.name n))).

#[local] Unset Elimination Schemes.

(** What the host enumerates: the data of one entry, and for a directory
    the entries the host yields for the pattern [<path>\*], in the host's
    order (the first by [FindFirstFileExA], the others by [FindNextFileA]). *)
Inductive dirent : Type :=
| Dirent (dwFileAttributes : Z) (cFileName : list ascii) (contents : list dirent).

#[local] Set Elimination Schemes.

(** The arena and the nodes in memory, keyed by address.  Stores through
    the null pointer stop the run; page protection is not modelled. *)
Record machine : Type := {
  arena : Arena.LinearArena;
  heap : gmap Z Node.FileName
}.

Definition Run (A : Type) : Type := machine -> outcome (A * machine).

#[global] Instance Run_ret : MRet Run := fun _ a m => Done (a, m).
#[global] Instance Run_bind : MBind Run := fun _ _ f c m =>
  match c m with
  | Done (a, m') => f a m'
  | Stop e => Stop e
  end.

Definition lift {A : Type} (o : outcome A) : Run A := fun m =>
  match o with
  | Done a => Done (a, m)
  | Stop e => Stop e
  end.

Definition fail {A : Type} (e : fault) : Run A := fun _ => Stop e.

Definition node_at (h : gmap Z Node.FileName) (p : Z) : Node.FileName :=
  default Node.blank (h !! p).

(** A store to one field of the node at [p]. *)
Definition store_field (upd : Node.FileName -> Node.FileName) (p : Z) : Run unit :=
  fun m =>
    if p =? Arena.NULL then Stop NullWrite
    else Done (tt, {| arena := arena m;
                      heap := <[p := upd (node_at (heap m) p)]> (heap m) |}).

(** The load [p->next]. *)
Definition load_next (p : Z) : Run Z := fun m =>
  if p =? Arena.NULL then Stop NullRead
  else
    match heap m !! p with
    | Some n => Done (Node.next n, m)
    | None => Stop WildRead
    end.

(** [for (; strings->next; strings = strings->next) continue;] *)
Fixpoint walk_to_tail (fuel : nat) (strings : Z) : Run Z :=
  match fuel with
  | O => fail Diverges
  | S fuel' =>
      nx ← load_next strings;
      if nx =? Arena.NULL then mret strings else walk_to_tail fuel' nx
  end.

(** A walk that visits more nodes than memory holds visits one twice and
    never ends ([find_tail_fuel_enough]). *)
Definition find_tail (strings : Z) : Run Z := fun m =>
  walk_to_tail (S (size (heap m))) strings m.

Definition is_directory (dwFileAttributes : Z) : bool :=
  negb (Z.land dwFileAttributes FILE_ATTRIBUTE_DIRECTORY =? 0).

(** [strcmp(name, ".") == 0 || strcmp(name, "..") == 0] *)
Definition is_pseudo (cFileName : list ascii) : bool :=
  strcmp_eq cFileName (lit ".") || strcmp_eq cFileName (lit "..").

(** The body of a [do { ... } while (FindNextFileA(...))] loop, run once
    for each entry the host yields. *)
Definition do_while {S : Type} (body : dirent -> S -> Run S)
  : list dirent -> S -> Run S :=
  fix go (entries : list dirent) (s : S) : Run S :=
    match entries with
    | [] => mret s
    | find_data :: entries' => s' ← body find_data s; go entries' s'
    end.

Section Walk.

Variable v : variant.
Variable VirtualAlloc_commit : Z -> Z -> bool.

(** The call [alloc(arena, size)] on the arena of the machine. *)
Definition call_alloc (size : Z) : Run Z := fun m =>
  let ra := Arena.alloc v VirtualAlloc_commit (arena m) size in
  Done (Arena.ptr_of (fst ra), {| arena := snd ra; heap := heap m |}).

(** [get_file_list_custom] around a given loop body: the pattern is
    built, the host is asked for the entries, the loop runs.  With no
    entry at all [find_data] is read without having been written. *)
Definition get_file_list_with
           (body : list ascii -> dirent -> Path.PathBuilder * Z
                   -> Run (Path.PathBuilder * Z))
           (root : list ascii) (entries : list dirent) (strings : Z) : Run unit :=
  pattern ← lift (Path.push_path Path.zeroed root);
  pattern ← lift (Path.push_path pattern (lit "\*"));
  match entries with
  | [] => fail NoFindData
  | _ => _ ← do_while (body root) entries (pattern, strings); mret tt
  end.

(** One iteration of the loop of [get_file_list_custom]; the state of
    the loop is the pattern and the [strings] pointer. *)
Fixpoint loop_body (root : list ascii) (find_data : dirent)
         (st : Path.PathBuilder * Z) {struct find_data}
  : Run (Path.PathBuilder * Z) :=
  match find_data with
  | Dirent dwFileAttributes cFileName contents =>
      if is_pseudo cFileName then mret st
      else
        pattern ← lift (Path.push_path (Path.reset_path (fst st)) root);
        pattern ← lift (Path.push_path pattern (lit "\"));
        pattern ← lift (Path.push_path pattern cFileName);
        file ← call_alloc (size_add sizeof_FileName
                               (size_mul (Path.used pattern) sizeof_char));
        store_field (Node.set_length (Path.used pattern)) file;;
        store_field (Node.set_next Arena.NULL) file;;
        store_field (Node.set_name
                       (firstn (Z.to_nat (size_add (Path.used pattern) 1))
                               (Path.buffer pattern))) file;;
        strings ← find_tail (snd st);
        store_field (Node.set_next file) strings;;
        (if is_directory dwFileAttributes
         then get_file_list_with loop_body (Path.buffer pattern) contents strings
         else mret tt);;
        mret (pattern, strings)
  end.

Definition get_file_list_custom : list ascii -> list dirent -> Z -> Run unit :=
  get_file_list_with loop_body.

(** The third block of [main], up to the call of the walk: the arena is
    made, the first node is allocated and filled in, the walk starts at
    ["."].  The result is the address of the first node. *)
Definition main_custom (region : Z) (entries : list dirent) : outcome (Z * machine) :=
  (first ← call_alloc (size_add sizeof_FileName sizeof_char);
   store_field (Node.set_length 1) first;;
   store_field (Node.set_next Arena.NULL) first;;
   store_field (Node.set_name (lit "." ++ [NUL])) first;;
   get_file_list_custom (lit ".") entries first;;
   mret first)
    {| arena := Arena.make region (1024 * 1024 * 1024); heap := ∅ |}.

End Walk.

(** ** Reading the list back *)

(** [chain h p ps]: following [next] from [p] visits the addresses [ps]
    and ends at a node whose [next] is null. *)
Inductive chain (h : gmap Z Node.FileName) : Z -> list Z -> Prop :=
| chain_last p n :
    p <> Arena.NULL -> h !! p = Some n -> Node.next n = Arena.NULL ->
    chain h p [p]
| chain_link p n ps :
    p <> Arena.NULL -> h !! p = Some n -> Node.next n <> Arena.NULL ->
    chain h (Node.next n) ps ->
    chain h p (p :: ps).

(** The path stored in the node at [p], as a C string. *)
Definition path_at (h : gmap Z Node.FileName) (p : Z) : list ascii :=
  c_bytes (Node.name (node_at h p)).

(** [listed h p l]: the list that starts at [p] holds the paths [l], in
    link order. *)
Definition listed (h : gmap Z Node.FileName) (p : Z) (l : list (list ascii)) : Prop :=
  exists ps, chain h p ps /\ map (path_at h) ps = l.

(** ** The order of discovery, as the specification words it *)

Definition join (root cFileName : list ascii) : list ascii :=
  c_bytes root ++ lit "\" ++ c_bytes cFileName.

(** Pre-order: an entry, then the whole subtree of a directory, then the
    next sibling; [.] and [..] are skipped. *)
Fixpoint discovered (root : list ascii) (e : dirent) : list (list ascii) :=
  match e with
  | Dirent dwFileAttributes cFileName contents =>
      if is_pseudo cFileName then []
      else
        join root cFileName
          :: (if is_directory dwFileAttributes
              then flat_map (discovered (join root cFileName)) contents
              else [])
  end.

Definition preorder (root : list ascii) (entries : list dirent) : list (list ascii) :=
  flat_map (discovered root) entries.

(** The host that grants every commit, and the one that grants none. *)
Definition host_grants : Z -> Z -> bool := fun _ _ => true.
Definition host_refuses : Z -> Z -> bool := fun _ _ => false.

(** ** What the specification says, in unbounded integers *)

(** [n] rounded up to the next multiple of [m]. *)
Definition round_up (n m : Z) : Z := (n + m - 1) / m * m.

(** The granularity of a variant: the pointer size or twice that. *)
Definition granularity (v : variant) : Z :=
  match v with main_cc => 8 | main_cpp => 16 end.

Definition PAGE_SIZE : Z := 4096.
Definition COMMIT_CHUNK : Z := 100 * 4096.

(** The commit size of the specification:
    [min(committed + max(alignedSizeRoundedToPageSize, COMMIT_CHUNK), reserved)]. *)
Definition spec_commit_size (committed aligned reserved : Z) : Z :=
  Z.min (committed + Z.max (round_up aligned PAGE_SIZE) COMMIT_CHUNK) reserved.

(** ** The state the walk starts from *)

(** The arena cannot wrap around within one node ([reserved] is at most
    half of the range of [size_t]) and every node in memory ends at or
    below its frontier [base + used]. *)
Definition tidy (m : machine) : Prop :=
  0 <= Arena.used (arena m)
  /\ Arena.reserved (arena m) <= 2 ^ 63
  /\ forall p n, heap m !! p = Some n ->
                 node_end p n <= Arena.base (arena m) + Arena.used (arena m).

(** ** When the walk returns *)

(** The arena bytes taken by the node of a path. *)
Definition node_bytes (v : variant) (path : list ascii) : Z :=
  Arena.aligned_size v (sizeof_FileName + Z.of_nat (length path)).

(** The arena bytes taken by the nodes of an entry and of what lies below it. *)
Fixpoint demand (v : variant) (root : list ascii) (e : dirent) : Z :=
  match e with
  | Dirent dwFileAttributes cFileName contents =>
      if is_pseudo cFileName then 0
      else
        node_bytes v (join root cFileName)
        + (if is_directory dwFileAttributes
           then fold_right (fun e' acc => demand v (join root cFileName) e' + acc)
                           0 contents
           else 0)
  end.

Definition demand_all (v : variant) (root : list ascii) (entries : list dirent) : Z :=
  fold_right (fun e acc => demand v root e + acc) 0 entries.

(** The path of the entry fits the buffer; below a directory the pattern
    [<path>\*] fits too, the host yields at least one entry, and the same
    holds for every entry it yields. *)
Fixpoint walkable (root : list ascii) (e : dirent) : bool :=
  match e with
  | Dirent dwFileAttributes cFileName contents =>
      is_pseudo cFileName
      || ((strlen root + 1 + strlen cFileName <? MAX_PATH)
          && (negb (is_directory dwFileAttributes)
              || ((strlen root + 1 + strlen cFileName + 2 <? MAX_PATH)
                  && negb (Nat.eqb (length contents) 0)
                  && forallb (walkable (join root cFileName)) contents)))
  end.

Definition walkable_all (root : list ascii) (entries : list dirent) : bool :=
  (strlen root + 2 <? MAX_PATH)
  && negb (Nat.eqb (length entries) 0)
  && forallb (walkable root) entries.

(** The machine of the third block of [main] when the walk is called:
    the first node, for the path ["."], is the only node. *)
Definition main_machine (region : Z) : machine :=
  {| arena := {| Arena.base := region; Arena.used := 32;
                 Arena.committed := 409600;
                 Arena.reserved := 1024 * 1024 * 1024 |};
     heap := {[ region := {| Node.length := 1; Node.next := Arena.NULL;
                             Node.name := lit "." ++ [NUL] |} ]} |}.

(** What a walk has done to the list that starts at [p0] and held the
    nodes [ps]: the nodes [qs] are linked behind them and hold [paths],
    the old nodes hold what they held, the machine is tidy. *)
Definition grown (m m' : machine) (p0 : Z) (ps qs : list Z)
           (paths : list (list ascii)) : Prop :=
  chain (heap m') p0 (ps ++ qs)
  /\ map (path_at (heap m')) qs = paths
  /\ (forall q, q ∈ ps -> path_at (heap m') q = path_at (heap m) q)
  /\ tidy m'.

(** The machine after the body of the loop has allocated the node of
    [pattern], filled it in and linked it behind the node [t]. *)
Definition linked_machine (v : variant) (host : Z -> Z -> bool) (m : machine)
           (pattern : Path.PathBuilder) (t : Z) : machine :=
  let ra := Arena.alloc v host (arena m)
              (size_add sizeof_FileName (size_mul (Path.used pattern) sizeof_char)) in
  let file := Arena.ptr_of (fst ra) in
  let h3 := <[file := {| Node.length := Path.used pattern;
                         Node.next := Arena.NULL;
                         Node.name := take (Z.to_nat (size_add (Path.used pattern) 1))
                                           (Path.buffer pattern) |}]> (heap m) in
  {| arena := snd ra;
     heap := <[t := Node.set_next file (node_at h3 t)]> h3 |}.

(** What one iteration of the loop does for the entry [e], whatever the
    root: started in a tidy machine with [strings] on the list of [p0],
    an iteration that returns has linked the nodes of [e] and of what
    lies below [e], in pre-order, and left [strings] on the list. *)
Definition iteration_grows (v : variant) (host : Z -> Z -> bool) (e : dirent) : Prop :=
  forall root st m st' m' p0 ps,
    Path.well_sized (fst st) -> tidy m ->
    chain (heap m) p0 ps -> snd st ∈ ps ->
    loop_body v host root e st m = Done (st', m') ->
    Path.well_sized (fst st')
    /\ exists qs, snd st' ∈ ps ++ qs /\ grown m m' p0 ps qs (discovered root e).

(** When an iteration returns: in a tidy machine with [strings] on the
    list of [p0], for a walkable entry, with a host that grants every
    commit, a reservation that is there and room in it for the nodes. *)
Definition iteration_returns (v : variant) (host : Z -> Z -> bool) (e : dirent) : Prop :=
  forall root st m p0 ps,
    Path.well_sized (fst st) -> tidy m ->
    chain (heap m) p0 ps -> snd st ∈ ps ->
    walkable root e = true ->
    (forall b n, host b n = true) ->
    0 < Arena.base (arena m) ->
    Arena.used (arena m) + demand v root e <= Arena.reserved (arena m) ->
    exists st' m',
      loop_body v host root e st m = Done (st', m')
      /\ Arena.used (arena m') = Arena.used (arena m) + demand v root e
      /\ Arena.base (arena m') = Arena.base (arena m)
      /\ Arena.reserved (arena m') = Arena.reserved (arena m).

(** The enumeration of the example: [a] is a file, [b] a directory that
    holds the file [c]; the host yields [.] and [..] first in each
    directory. *)
Definition pseudo_entries : list dirent :=
  [Dirent 16 (lit ".") []; Dirent 16 (lit "..") []].

Definition example_entries : list dirent :=
  pseudo_entries
    ++ [Dirent 32 (lit "a") [];
        Dirent 16 (lit "b") (pseudo_entries ++ [Dirent 32 (lit "c") []])].

(** * The rest of the program *)

(** ** Sequences of calls on the arena *)

(** The arena after a sequence of [alloc] calls. *)
Definition arena_after (v : variant) (a : Arena.LinearArena) (calls : list Arena.call)
  : Arena.LinearArena :=
  fold_left (fun a c => snd (Arena.alloc v (Arena.host c) a (Arena.size c))) calls a.

(** The aligned sizes of the requests of a sequence, added up. *)
Definition aligned_total (v : variant) (calls : list Arena.call) : Z :=
  fold_right (fun c acc => Arena.aligned_size v (Arena.size c) + acc) 0 calls.

(** ** The count loops of [main] *)

(** [for (...; first; first = first->next) ++file_count;] from the test
    of [first] on. *)
Fixpoint count_loop (fuel : nat) (first : Z) (file_count : Z) : Run Z :=
  match fuel with
  | O => fail Diverges
  | S fuel' =>
      if first =? Arena.NULL then mret file_count
      else
        nx ← load_next first;
        count_loop fuel' nx (size_add file_count 1)
  end.

(** The loop from [file_count = 0] on.  A loop that visits more nodes
    than memory holds never ends. *)
Definition count_from (first : Z) : Run Z := fun m =>
  count_loop (S (size (heap m))) first 0 m.

(** [size_t file_count = 0;
     for (first = first->next; first; first = first->next) ++file_count;] *)
Definition count_nodes (first : Z) : Run Z :=
  nx ← load_next first;
  count_from nx.

(** The third block of [main] up to the count that is printed. *)
Definition main_custom_count (v : variant) (host : Z -> Z -> bool) (region : Z)
           (entries : list dirent) : outcome Z :=
  match main_custom v host region entries with
  | Done (first, m) =>
      match count_nodes first m with
      | Done (file_count, _) => Done file_count
      | Stop e => Stop e
      end
  | Stop e => Stop e
  end.

(** ** The version on [std::string] and [std::vector] *)

(** A [std::string] is the list of its bytes; [append] of a
    [std::string] appends them all, [append] of a [const char * ] appends
    the bytes of the C string.  [reserve] changes no contents. *)
Definition std_append (pattern other : list ascii) : list ascii := pattern ++ other.
Definition std_append_cstr (pattern str : list ascii) : list ascii :=
  pattern ++ c_bytes str.

(** The loop of [get_file_list_stl] over the entries the host yields;
    its state is [pattern] and the vector [strings]. *)
Definition stl_do_while (body : dirent -> list ascii * list (list ascii)
                                -> outcome (list ascii * list (list ascii)))
  : list dirent -> list ascii * list (list ascii)
    -> outcome (list ascii * list (list ascii)) :=
  fix go (entries : list dirent) (st : list ascii * list (list ascii)) :=
    match entries with
    | [] => Done st
    | find_data :: entries' => st' ← body find_data st; go entries' st'
    end.

Definition get_file_list_stl_with
           (body : list ascii -> dirent -> list ascii * list (list ascii)
                   -> outcome (list ascii * list (list ascii)))
           (root : list ascii) (entries : list dirent) (strings : list (list ascii))
  : outcome (list (list ascii)) :=
  let pattern := std_append_cstr (std_append [] root) (lit "\*") in
  match entries with
  | [] => Stop NoFindData
  | _ => st ← stl_do_while (body root) entries (pattern, strings); mret (snd st)
  end.

(** One iteration of the loop of [get_file_list_stl]. *)
Fixpoint stl_body (root : list ascii) (find_data : dirent)
         (st : list ascii * list (list ascii)) {struct find_data}
  : outcome (list ascii * list (list ascii)) :=
  match find_data with
  | Dirent dwFileAttributes cFileName contents =>
      if is_pseudo cFileName then Done st
      else
        let pattern :=
          std_append_cstr (std_append_cstr (std_append [] root) (lit "\")) cFileName in
        let strings := snd st ++ [pattern] in
        if is_directory dwFileAttributes
        then strings' ← get_file_list_stl_with stl_body pattern contents strings;
             mret (pattern, strings')
        else Done (pattern, strings)
  end.

Definition get_file_list_stl
  : list ascii -> list dirent -> list (list ascii) -> outcome (list (list ascii)) :=
  get_file_list_stl_with stl_body.

(** The first block of [main]: the walk from ["."] into an empty vector
    and the count [strings.size()]. *)
Definition main_stl_count (entries : list dirent) : outcome Z :=
  strings ← get_file_list_stl (lit ".") entries [];
  mret (wrap (Z.of_nat (length strings))).

(** Every directory that is walked yields at least one entry. *)
Fixpoint yields (e : dirent) : bool :=
  match e with
  | Dirent dwFileAttributes cFileName contents =>
      is_pseudo cFileName
      || negb (is_directory dwFileAttributes)
      || (negb (Nat.eqb (length contents) 0) && forallb yields contents)
  end.

Definition yields_all (entries : list dirent) : bool :=
  negb (Nat.eqb (length entries) 0) && forallb yields entries.

(** ** The version on [malloc] *)

Section Nostl.

Variable v : variant.

(** [malloc h n] is the answer of the C library to [malloc(n)] when the
    nodes [h] are the live blocks: an address, or 0. *)
Variable malloc : gmap Z Node.FileName -> Z -> Z.

(** What the stack holds where [PathBuilder pattern;] is declared, for
    the call with a given root ([main.cpp] declares it without an
    initialiser). *)
Variable stack_garbage : list ascii -> Path.PathBuilder.

Definition call_malloc (size : Z) : Run Z := fun m =>
  Done (malloc (heap m) size, m).

(** [StringBuilder pattern = {};] in [main.cc];
    [PathBuilder pattern; ... reset_path(&pattern);] in [main.cpp]. *)
Definition declared_pattern (root : list ascii) : Path.PathBuilder :=
  match v with
  | main_cc => Path.zeroed
  | main_cpp => Path.reset_path (stack_garbage root)
  end.

Definition get_file_list_nostl_with
           (body : list ascii -> dirent -> Path.PathBuilder * Z
                   -> Run (Path.PathBuilder * Z))
           (root : list ascii) (entries : list dirent) (strings : Z) : Run unit :=
  pattern ← lift (Path.push_path (declared_pattern root) root);
  pattern ← lift (Path.push_path pattern (lit "\*"));
  match entries with
  | [] => fail NoFindData
  | _ => _ ← do_while (body root) entries (pattern, strings); mret tt
  end.

(** One iteration of the loop of [get_file_list_nostl]. *)
Fixpoint nostl_body (root : list ascii) (find_data : dirent)
         (st : Path.PathBuilder * Z) {struct find_data}
  : Run (Path.PathBuilder * Z) :=
  match find_data with
  | Dirent dwFileAttributes cFileName contents =>
      if is_pseudo cFileName then mret st
      else
        pattern ← lift (Path.push_path (Path.reset_path (fst st)) root);
        pattern ← lift (Path.push_path pattern (lit "\"));
        pattern ← lift (Path.push_path pattern cFileName);
        file ← call_malloc (size_add sizeof_FileName
                                (size_mul (Path.used pattern) sizeof_char));
        store_field (Node.set_length (Path.used pattern)) file;;
        store_field (Node.set_next Arena.NULL) file;;
        store_field (Node.set_name
                       (firstn (Z.to_nat (size_add (Path.used pattern) 1))
                               (Path.buffer pattern))) file;;
        strings ← find_tail (snd st);
        store_field (Node.set_next file) strings;;
        (if is_directory dwFileAttributes
         then get_file_list_nostl_with nostl_body (Path.buffer pattern) contents strings
         else mret tt);;
        mret (pattern, strings)
  end.

Definition get_file_list_nostl : list ascii -> list dirent -> Z -> Run unit :=
  get_file_list_nostl_with nostl_body.

End Nostl.

(** The blocks [malloc] hands out are apart from the live nodes: a
    result that is not null, for a size above 0, overlaps no node. *)
Definition malloc_apart (malloc : gmap Z Node.FileName -> Z -> Z) : Prop :=
  forall h n, 0 < n -> malloc h n <> Arena.NULL ->
    forall q nq, h !! q = Some nq ->
      malloc h n + n <= q \/ node_end q nq <= malloc h n.

(** What a walk on [malloc] has done to the list of [p0]. *)
Definition extended (h h' : gmap Z Node.FileName) (p0 : Z) (ps qs : list Z)
           (paths : list (list ascii)) : Prop :=
  chain h' p0 (ps ++ qs)
  /\ map (path_at h') qs = paths
  /\ (forall q, q ∈ ps -> path_at h' q = path_at h q).

(** A [malloc] that answers with the first address above every node. *)
Definition malloc_above (h : gmap Z Node.FileName) (n : Z) : Z :=
  map_fold (fun q nq top => Z.max top (node_end q nq)) 4096 h.

(** What one iteration of the loop of [get_file_list_nostl] does for
    the entry [e]: an iteration that returns has linked the nodes of [e]
    and of what lies below it, in pre-order. *)
Definition iteration_extends (v : variant) (malloc : gmap Z Node.FileName -> Z -> Z)
           (stack_garbage : list ascii -> Path.PathBuilder) (e : dirent) : Prop :=
  forall root st m st' m' p0 ps,
    Path.well_sized (fst st) ->
    chain (heap m) p0 ps -> snd st ∈ ps ->
    nostl_body v malloc stack_garbage root e st m = Done (st', m') ->
    Path.well_sized (fst st')
    /\ exists qs, snd st' ∈ ps ++ qs
                  /\ extended (heap m) (heap m') p0 ps qs (discovered root e).

(** The second block of [main], up to the call of the walk and through
    it: the first node is allocated ([malloc] in [main.cc], [calloc] in
    [main.cpp]) and filled in, the walk starts at ["."].  The result is
    the address of the first node. *)
Definition main_nostl (v : variant) (malloc : gmap Z Node.FileName -> Z -> Z)
           (stack_garbage : list ascii -> Path.PathBuilder)
           (entries : list dirent) : outcome (Z * machine) :=
  (first ← call_malloc malloc (size_add sizeof_FileName sizeof_char);
   store_field (Node.set_length 1) first;;
   store_field (Node.set_next Arena.NULL) first;;
   store_field (Node.set_name (lit "." ++ [NUL])) first;;
   get_file_list_nostl v malloc stack_garbage (lit ".") entries first;;
   mret first)
    {| arena := Arena.make Arena.NULL 0; heap := ∅ |}.

(** The second block of [main] up to the count that is printed. *)
Definition main_nostl_count (v : variant) (malloc : gmap Z Node.FileName -> Z -> Z)
           (stack_garbage : list ascii -> Path.PathBuilder)
           (entries : list dirent) : outcome Z :=
  match main_nostl v malloc stack_garbage entries with
  | Done (first, m) =>
      match count_nodes first m with
      | Done (file_count, _) => Done file_count
      | Stop e => Stop e
      end
  | Stop e => Stop e
  end.

(** The name of an entry is [.] or [..]. *)
Definition pseudo_entry (e : dirent) : bool :=
  match e with Dirent _ cFileName _ => is_pseudo cFileName end.

(** The arena bytes taken by the nodes of a list of paths. *)
Definition total_bytes (v : variant) (paths : list (list ascii)) : Z :=
  fold_right (fun path acc => node_bytes v path + acc) 0 paths.

(** * Facts about [size_t] arithmetic and the macros *)

Section SizeArithmetic.

Lemma wrap_range z : is_size_t (wrap z).
Proof. unfold is_size_t, wrap, SIZE_WIDTH. apply Z.mod_pos_bound. lia. Qed.

Lemma wrap_small z : is_size_t z -> wrap z = z.
Proof. unfold is_size_t, wrap. intros H. apply Z.mod_small. exact H. Qed.

Lemma size_add_small a b : 0 <= a + b < 2 ^ 64 -> size_add a b = a + b.
Proof. intros H. unfold size_add. apply wrap_small. exact H. Qed.

Lemma size_add_range a b : is_size_t (size_add a b).
Proof. apply wrap_range. Qed.

Lemma CLAMP_TOP_min a b : CLAMP_TOP a b = Z.min a b.
Proof. unfold CLAMP_TOP. destruct (Z.gtb_spec a b); lia. Qed.

Lemma MAX_max a b : MAX a b = Z.max a b.
Proof. unfold MAX. destruct (Z.gtb_spec a b); lia. Qed.

(** The mask [~(2^k - 1)] as a 64-bit value clears the low [k] bits of a
    64-bit value. *)
Lemma land_mask x k :
  0 <= k -> is_size_t x ->
  Z.land x (size_not (2 ^ k - 1)) = x / 2 ^ k * 2 ^ k.
Proof.
  intros Hk Hx. unfold size_not, wrap, SIZE_WIDTH.
  rewrite <- (Z.land_ones (Z.lnot _) 64) by lia.
  rewrite Z.land_assoc, (Z.land_comm x), <- Z.land_assoc.
  rewrite (Z.land_ones x 64) by lia.
  rewrite (Z.mod_small x) by exact Hx.
  rewrite Z.land_comm.
  replace (2 ^ k - 1) with (Z.ones k) by (rewrite Z.ones_equiv; lia).
  rewrite <- Z.ldiff_land.
  rewrite Z.ldiff_ones_r by lia.
  rewrite Z.shiftl_mul_pow2, Z.shiftr_div_pow2 by lia. reflexivity.
Qed.

(** The bit trick of the macro, for a power of two below [2^64]: the
    64-bit sum with its low bits cleared. *)
Lemma NEXT_MULTIPLE_pow2 n k :
  0 <= k < 64 ->
  NEXT_MULTIPLE n (2 ^ k) = wrap (n + 2 ^ k - 1) / 2 ^ k * 2 ^ k.
Proof.
  intros Hk. unfold NEXT_MULTIPLE.
  assert (Hp : 0 < 2 ^ k < 2 ^ 64).
  { split; [apply Z.pow_pos_nonneg; lia | apply Z.pow_lt_mono_r; lia]. }
  assert (Hs : size_sub (2 ^ k) 1 = 2 ^ k - 1).
  { unfold size_sub. apply wrap_small. unfold is_size_t, SIZE_WIDTH. lia. }
  rewrite Hs, land_mask by (try lia; apply size_add_range).
  unfold size_add, wrap. rewrite Z.add_sub_assoc. reflexivity.
Qed.

Lemma round_up_bounds n m : 0 < m -> n <= round_up n m < n + m.
Proof.
  intros Hm. unfold round_up.
  pose proof (Z.div_mod (n + m - 1) m ltac:(lia)) as E.
  pose proof (Z.mod_pos_bound (n + m - 1) m Hm) as B. lia.
Qed.

Lemma round_up_divide n m : (m | round_up n m).
Proof. unfold round_up. apply Z.divide_factor_r. Qed.

(** Without overflow the macro rounds up. *)
Lemma NEXT_MULTIPLE_round_up n k :
  0 <= k < 64 -> 0 <= n -> n + 2 ^ k - 1 < 2 ^ 64 ->
  NEXT_MULTIPLE n (2 ^ k) = round_up n (2 ^ k).
Proof.
  intros Hk Hn Hov. rewrite NEXT_MULTIPLE_pow2 by exact Hk.
  assert (Hp : 0 < 2 ^ k) by (apply Z.pow_pos_nonneg; lia).
  rewrite wrap_small by (unfold is_size_t, SIZE_WIDTH; lia). reflexivity.
Qed.

Lemma NEXT_MULTIPLE_divide n k :
  0 <= k < 64 -> (2 ^ k | NEXT_MULTIPLE n (2 ^ k)).
Proof.
  intros Hk. rewrite NEXT_MULTIPLE_pow2 by exact Hk. apply Z.divide_factor_r.
Qed.

Lemma NEXT_MULTIPLE_range n k : 0 <= k < 64 -> is_size_t (NEXT_MULTIPLE n (2 ^ k)).
Proof.
  intros Hk. rewrite NEXT_MULTIPLE_pow2 by exact Hk.
  assert (Hp : 0 < 2 ^ k) by (apply Z.pow_pos_nonneg; lia).
  pose proof (wrap_range (n + 2 ^ k - 1)) as [H0 H1].
  pose proof (Z.mul_div_le (wrap (n + 2 ^ k - 1)) (2 ^ k) Hp) as L.
  pose proof (Z.div_pos (wrap (n + 2 ^ k - 1)) (2 ^ k) H0 Hp) as D.
  unfold is_size_t. split; [apply Z.mul_nonneg_nonneg; lia | lia].
Qed.

Lemma alignment_pow2 v : alignment v = 2 ^ (match v with main_cc => 3 | main_cpp => 4 end).
Proof. destruct v; reflexivity. Qed.

Lemma alignment_granularity v : alignment v = granularity v.
Proof. destruct v; reflexivity. Qed.

End SizeArithmetic.

(** * Facts about the arena *)

Section ArenaFacts.

Import Arena.

Lemma aligned_size_pow2 v n :
  aligned_size v n = NEXT_MULTIPLE n (2 ^ Z.log2 (granularity v))
  /\ granularity v = 2 ^ Z.log2 (granularity v)
  /\ 0 <= Z.log2 (granularity v) < 64.
Proof. destruct v; cbn; repeat split; lia. Qed.

Lemma aligned_size_range v n : is_size_t (aligned_size v n).
Proof.
  destruct (aligned_size_pow2 v n) as (-> & _ & Hk).
  apply NEXT_MULTIPLE_range, Hk.
Qed.

Lemma aligned_size_divide v n : (granularity v | aligned_size v n).
Proof.
  destruct (aligned_size_pow2 v n) as (-> & Hg & Hk).
  rewrite Hg at 1. apply NEXT_MULTIPLE_divide, Hk.
Qed.

Lemma aligned_size_round_up v n :
  0 <= n -> n + granularity v - 1 < 2 ^ 64 ->
  aligned_size v n = round_up n (granularity v).
Proof.
  intros Hn Hov. destruct (aligned_size_pow2 v n) as (-> & Hg & Hk).
  rewrite Hg at 2. apply NEXT_MULTIPLE_round_up; [exact Hk | lia |].
  rewrite <- Hg. exact Hov.
Qed.

(** The exhausted arena: the first test of [alloc]. *)
Lemma alloc_exhausted v h a n :
  reserved a <= used a -> alloc v h a n = (OutOfReservedSpace, a).
Proof.
  intros H. unfold alloc.
  destruct (Z.geb_spec (used a) (reserved a)); [reflexivity | lia].
Qed.

(** What a returned block says about the call. *)
Lemma alloc_block v h a n :
  is_block (fst (alloc v h a n)) = true ->
  used a < reserved a
  /\ fst (alloc v h a n) = Block (base a + used a)
  /\ used (snd (alloc v h a n)) = size_add (used a) (aligned_size v n)
  /\ base (snd (alloc v h a n)) = base a
  /\ reserved (snd (alloc v h a n)) = reserved a.
Proof.
  unfold alloc, aligned_size.
  destruct (Z.geb_spec (used a) (reserved a)); [discriminate |].
  destruct (_ >? committed a).
  - destruct (h _ _); [| discriminate]. cbn. intros _. repeat split; lia.
  - cbn. intros _. repeat split; lia.
Qed.

(** Neither [base] nor [reserved] is ever written by [alloc]. *)
Lemma alloc_base_reserved v h a n :
  base (snd (alloc v h a n)) = base a /\ reserved (snd (alloc v h a n)) = reserved a.
Proof.
  unfold alloc.
  destruct (_ >=? _); [split; reflexivity |].
  destruct (_ >? _); [destruct (h _ _) |]; split; reflexivity.
Qed.

(** [alloc] leaves [size_t] values in the counters. *)
Lemma alloc_well_typed v h a n : well_typed a -> well_typed (snd (alloc v h a n)).
Proof.
  intros (Hu & Hc & Hr). unfold alloc, well_typed.
  destruct (_ >=? _); [cbn; auto |].
  destruct (_ >? _); [destruct (h _ _) |]; cbn; auto using size_add_range.
  split; [apply size_add_range | split; [| exact Hr]].
  rewrite CLAMP_TOP_min. pose proof (size_add_range (committed a)
    (MAX (NEXT_MULTIPLE (NEXT_MULTIPLE n (alignment v)) 4096) (100 * 4096))) as R.
  unfold is_size_t in *. lia.
Qed.

Lemma reachable_well_typed v a : reachable v a -> well_typed a.
Proof.
  induction 1 as [region r Hr | a h n _ IH _].
  - unfold well_typed, make, is_size_t in *. cbn. lia.
  - apply alloc_well_typed, IH.
Qed.

(** The half of the commit invariant that the clamp does secure. *)
Lemma reachable_committed_le_reserved v a :
  reachable v a -> committed a <= reserved a.
Proof.
  induction 1 as [region r Hr | a h n _ IH _].
  - unfold is_size_t in Hr. cbn. lia.
  - unfold alloc.
    destruct (_ >=? _); [exact IH |].
    destruct (_ >? _); [destruct (h _ _) |]; cbn; try exact IH.
    rewrite CLAMP_TOP_min. lia.
Qed.

(** [used] stays a multiple of the granularity. *)
Lemma reachable_used_aligned v a : reachable v a -> (granularity v | used a).
Proof.
  induction 1 as [region r Hr | a h n _ IH _].
  - cbn. apply Z.divide_0_r.
  - assert (Hw : (granularity v | size_add (used a) (aligned_size v n))).
    { unfold size_add, wrap, SIZE_WIDTH. rewrite Z.mod_eq by lia.
      apply Z.divide_sub_r.
      - apply Z.divide_add_r; [exact IH | apply aligned_size_divide].
      - apply Z.divide_mul_l. destruct v; [exists (2 ^ 61) | exists (2 ^ 60)]; reflexivity. }
    unfold alloc. fold (aligned_size v n).
    destruct (_ >=? _); [exact IH |].
    destruct (_ >? _); [destruct (h _ _) |]; cbn; assumption.
Qed.

(** A successful run without wrap-around: every step starts at or after
    the arena it began with and hands out [base + used]. *)
Lemma run_steps v calls : forall a,
  0 <= used a ->
  all_succeeded (run v a calls) -> no_wrap v (run v a calls) ->
  Forall (fun s => used a <= used (before s)
                   /\ used (after s) = used (before s) + aligned_size v (request s)
                   /\ result s = Block (base a + used (before s)))
         (run v a calls).
Proof.
  induction calls as [| c calls IH]; intros a Ha Hok Hnw; cbn [run] in *.
  - constructor.
  - inversion Hok as [| s0 tr Hb Hok']; subst.
    inversion Hnw as [| s1 tr1 Hw Hnw']; subst. cbn in Hb, Hw.
    destruct (alloc_block _ _ _ _ Hb) as (_ & Hr & Hu & Hbase & _).
    pose proof (aligned_size_range v (size c)) as [Hal _].
    rewrite size_add_small in Hu by lia.
    constructor; cbn.
    + repeat split; [lia | exact Hu | exact Hr].
    + specialize (IH (snd (alloc v (host c) a (size c))) ltac:(lia) Hok' Hnw').
      eapply Forall_impl; [exact IH |].
      cbn. intros s (H1 & H2 & H3). rewrite Hbase in H3.
      repeat split; [lia | exact H2 | exact H3].
Qed.

Lemma run_ordered v calls : forall a i j si sj,
  0 <= used a ->
  all_succeeded (run v a calls) -> no_wrap v (run v a calls) ->
  (i < j)%nat ->
  run v a calls !! i = Some si -> run v a calls !! j = Some sj ->
  block_end v si <= block_start sj.
Proof.
  induction calls as [| c calls IH]; intros a i j si sj Ha Hok Hnw Hij Hi Hj;
    cbn [run] in *; [discriminate |].
  pose proof (run_steps v (c :: calls) a Ha Hok Hnw) as Hall. cbn [run] in Hall.
  inversion Hall as [| s0 tr (_ & Hu0 & Hr0) Htl]; subst. cbn in Hu0, Hr0.
  inversion Hok as [| s0 tr Hb Hok']; subst.
  inversion Hnw as [| s1 tr1 Hw Hnw']; subst.
  pose proof (aligned_size_range v (size c)) as [Hal _].
  destruct j as [| j]; [lia |]. cbn in Hj.
  destruct i as [| i]; cbn in Hi.
  - injection Hi as <-.
    destruct (alloc_block _ _ _ _ Hb) as (_ & _ & _ & Hbase & _).
    pose proof (run_steps v calls (snd (alloc v (host c) a (size c)))
                  ltac:(lia) Hok' Hnw') as Htl'.
    rewrite Forall_lookup in Htl'. destruct (Htl' _ _ Hj) as (Hge & _ & Hrj).
    unfold block_end, block_start. cbn. rewrite Hr0, Hrj. cbn. lia.
  - eapply (IH (snd (alloc v (host c) a (size c))) i j); eauto; lia.
Qed.

(** ** The commit invariant *)

(** A call keeps [used <= committed <= reserved] when the request fits
    the rest of the reservation and the commit size does not overflow. *)
Lemma alloc_keeps_invariant v h a n :
  well_typed a ->
  used a <= committed a <= reserved a ->
  used a + aligned_size v n <= reserved a ->
  committed a + Z.max (round_up (aligned_size v n) PAGE_SIZE) COMMIT_CHUNK < 2 ^ 64 ->
  used (snd (alloc v h a n)) <= committed (snd (alloc v h a n))
  /\ committed (snd (alloc v h a n)) <= reserved (snd (alloc v h a n)).
Proof.
  intros (Hu & Hc & Hr) Hinv Hfit Hov.
  pose proof (aligned_size_range v n) as Hal.
  pose proof (round_up_bounds (aligned_size v n) PAGE_SIZE ltac:(unfold PAGE_SIZE; lia)) as Hrb.
  destruct (round_up_divide (aligned_size v n) PAGE_SIZE) as [q Hq].
  unfold is_size_t, SIZE_WIDTH, PAGE_SIZE, COMMIT_CHUNK in *.
  assert (Hpage : NEXT_MULTIPLE (aligned_size v n) 4096 = round_up (aligned_size v n) 4096).
  { apply (NEXT_MULTIPLE_round_up _ 12); lia. }
  assert (Hsum : size_add (used a) (aligned_size v n) = used a + aligned_size v n)
    by (apply size_add_small; lia).
  unfold alloc. fold (aligned_size v n).
  destruct (Z.geb_spec (used a) (reserved a)); [cbn; lia |].
  rewrite Hsum.
  destruct (Z.gtb_spec (used a + aligned_size v n) (committed a)).
  - rewrite CLAMP_TOP_min, MAX_max, Hpage, size_add_small by lia.
    destruct (h _ _);
      cbn [fst snd used base reserved committed set_used set_committed];
      [rewrite Hsum |]; lia.
  - cbn [fst snd used base reserved committed set_used set_committed].
    rewrite Hsum. lia.
Qed.

(** C1.  The arena of [main] (one GiB reserved), after a request that
    leaves 16 bytes free and a request of 40 bytes, both granted: the
    second call returns a block, [committed] is clamped to [reserved]
    and [used] has passed both.  The state is reachable and breaks
    [used <= committed <= reserved]. *)
Theorem C1_used_passes_committed :
  forall v,
    let a0 := make 65536 (1024 * 1024 * 1024) in
    let c1 := alloc v host_grants a0 (1024 * 1024 * 1024 - 16) in
    let c2 := alloc v host_grants (snd c1) 40 in
    reachable v (snd c2)
    /\ is_block (fst c1) = true /\ is_block (fst c2) = true
    /\ committed (snd c2) = reserved (snd c2)
    /\ reserved (snd c2) < used (snd c2)
    /\ ~ (used (snd c2) <= committed (snd c2) <= reserved (snd c2)).
Proof.
  intros v a0 c1 c2. split.
  - subst c2 c1 a0. apply reachable_alloc; [apply reachable_alloc; [apply reachable_make |] |];
      unfold is_size_t, SIZE_WIDTH; lia.
  - destruct v; vm_compute; repeat split; try reflexivity; intros [H _]; apply H; reflexivity.
Qed.

(** ** Exhaustion *)

(** C3.  With [used >= reserved] a call of [alloc], whatever the size
    and the host, returns at its first test: the result is the failure
    of exhaustion, the pointer returned is null, and the arena, so
    [used] and [committed], is as before. *)
Theorem C3_exhausted_fails v h a n :
  reserved a <= used a ->
  fst (alloc v h a n) = OutOfReservedSpace
  /\ ptr_of (fst (alloc v h a n)) = NULL
  /\ used (snd (alloc v h a n)) = used a
  /\ committed (snd (alloc v h a n)) = committed a
  /\ snd (alloc v h a n) = a.
Proof.
  intros H. rewrite (alloc_exhausted v h a n H). cbn. repeat split.
Qed.

Lemma C3_exhausted_fails_witness :
  let a := {| base := 65536; used := 4096; committed := 4096; reserved := 4096 |} in
  reserved a <= used a
  /\ fst (alloc main_cpp host_grants a 8) = OutOfReservedSpace
  /\ snd (alloc main_cpp host_grants a 8) = a.
Proof.
  intros a.
  pose proof (C3_exhausted_fails main_cpp host_grants a 8 ltac:(cbn; lia))
    as (H1 & _ & _ & _ & H2).
  split; [cbn; lia | split; assumption].
Defined.

(** ** Monotonicity and disjointness *)

(** Counterexample to C4 as stated.  On the arena of [main] the three
    granted requests 16, [2^64 - 16], 16 all return blocks; in the
    second one [used + aligned_size] wraps around, [used] goes from 16
    back to 0, and the third block is the first one again. *)
Lemma C4_wrap_counterexample :
  let tr := run main_cpp (make 65536 (1024 * 1024 * 1024))
                [granted 16; granted (2 ^ 64 - 16); granted 16] in
  all_succeeded tr
  /\ ~ Forall (fun s => used (before s) <= used (after s)) tr
  /\ ~ (forall i j si sj, (i < j)%nat -> tr !! i = Some si -> tr !! j = Some sj ->
                          disjoint_blocks main_cpp si sj).
Proof.
  intros tr. split; [| split].
  - repeat constructor.
  - intros H. eapply Forall_lookup_1 with (i := 1%nat) in H; [| reflexivity].
    vm_compute in H. apply H. reflexivity.
  - intros H. eapply (H 0%nat 2%nat _ _ ltac:(lia) eq_refl eq_refl 65536).
    vm_compute. repeat split; intros E; discriminate E.
Qed.

(** C4, amended.  For every sequence of calls of [alloc] on one arena
    that all return a block and in none of which [used + aligned_size]
    leaves the range of [size_t]: [used] never decreases, each call
    returns [base] plus the value [used] had before it, and a block
    ends where or before every later block starts, so no two blocks
    share an address. *)
Theorem C4_monotone_and_disjoint v a calls :
  0 <= used a ->
  all_succeeded (run v a calls) ->
  no_wrap v (run v a calls) ->
  Forall (fun s => used (before s) <= used (after s)
                   /\ result s = Block (base a + used (before s)))
         (run v a calls)
  /\ (forall i j si sj,
        (i < j)%nat ->
        run v a calls !! i = Some si -> run v a calls !! j = Some sj ->
        used (after si) <= used (before sj)
        /\ block_end v si <= block_start sj
        /\ disjoint_blocks v si sj).
Proof.
  intros Ha Hok Hnw. split.
  - eapply Forall_impl; [apply (run_steps v calls a Ha Hok Hnw) |].
    cbn. intros s (_ & Hu & Hr). split; [| exact Hr].
    pose proof (aligned_size_range v (request s)) as [Hal _]. lia.
  - intros i j si sj Hij Hi Hj.
    pose proof (run_ordered v calls a i j si sj Ha Hok Hnw Hij Hi Hj) as Hord.
    pose proof (run_steps v calls a Ha Hok Hnw) as Hall.
    rewrite Forall_lookup in Hall.
    destruct (Hall _ _ Hi) as (_ & Hui & Hri).
    destruct (Hall _ _ Hj) as (_ & _ & Hrj).
    split; [| split; [exact Hord |]].
    + unfold block_end, block_start in Hord. rewrite Hri, Hrj in Hord. cbn in Hord. lia.
    + intros x [[_ H1] [H2 _]]. lia.
Qed.

Lemma C4_monotone_and_disjoint_witness :
  let a := make 65536 (1024 * 1024 * 1024) in
  let calls := [granted 25; granted 28; granted 300] in
  Forall (fun s => used (before s) <= used (after s)
                   /\ result s = Block (base a + used (before s)))
         (run main_cpp a calls)
  /\ (forall i j si sj,
        (i < j)%nat ->
        run main_cpp a calls !! i = Some si -> run main_cpp a calls !! j = Some sj ->
        used (after si) <= used (before sj)
        /\ block_end main_cpp si <= block_start sj
        /\ disjoint_blocks main_cpp si sj).
Proof.
  intros a calls. apply (C4_monotone_and_disjoint main_cpp a calls).
  - cbn. lia.
  - repeat constructor.
  - repeat constructor.
Defined.

(** ** The commit size *)

(** Counterexample to C5 as stated.  On the fresh arena of [main] the
    granted request of [2^64 - 16] bytes has [used + aligned_size]
    above [committed]; rounding the aligned size up to a page wraps
    around to 0, the code commits one chunk, and the specification
    asks for the whole reservation. *)
Lemma C5_wrap_counterexample :
  let a := make 65536 (1024 * 1024 * 1024) in
  let n := 2 ^ 64 - 16 in
  let r := alloc main_cpp host_grants a n in
  used a + aligned_size main_cpp n > committed a
  /\ is_block (fst r) = true
  /\ committed (snd r) = 100 * 4096
  /\ spec_commit_size (committed a) (aligned_size main_cpp n) (reserved a)
     = 1024 * 1024 * 1024
  /\ committed (snd r)
     <> spec_commit_size (committed a) (aligned_size main_cpp n) (reserved a).
Proof. vm_compute. repeat split; intros E; discriminate E. Qed.

(** C5, amended.  For every call of [alloc] on an arena that is not
    exhausted, with [used + aligned_size] above [committed], and in
    which neither that sum nor [committed] plus the larger of the
    page-rounded size and the chunk leaves the range of [size_t]: when
    the host grants the commit of the size
    [min(committed + max(aligned_size rounded up to 4096, 100 * 4096), reserved)],
    the call returns a block and [committed] is that size; when the
    host refuses it, the call fails at the commit and the arena, so
    [used] and [committed], is as before. *)
Theorem C5_commit_size v h a n :
  well_typed a ->
  used a < reserved a ->
  used a + aligned_size v n > committed a ->
  used a + aligned_size v n < 2 ^ 64 ->
  committed a + Z.max (round_up (aligned_size v n) PAGE_SIZE) COMMIT_CHUNK < 2 ^ 64 ->
  let target := spec_commit_size (committed a) (aligned_size v n) (reserved a) in
  (h (base a) target = true ->
     is_block (fst (alloc v h a n)) = true
     /\ committed (snd (alloc v h a n)) = target)
  /\ (h (base a) target = false ->
        fst (alloc v h a n) = CommitFailed /\ snd (alloc v h a n) = a).
Proof.
  intros (Hu & Hc & Hr) Hne Hgt Hov1 Hov2 target.
  pose proof (aligned_size_range v n) as Hal.
  pose proof (round_up_bounds (aligned_size v n) PAGE_SIZE ltac:(unfold PAGE_SIZE; lia)) as Hrb.
  destruct (round_up_divide (aligned_size v n) PAGE_SIZE) as [q Hq].
  unfold is_size_t, SIZE_WIDTH, PAGE_SIZE, COMMIT_CHUNK in *.
  assert (Hpage : NEXT_MULTIPLE (aligned_size v n) 4096 = round_up (aligned_size v n) 4096).
  { apply (NEXT_MULTIPLE_round_up _ 12); lia. }
  assert (Hcs : CLAMP_TOP (size_add (committed a)
                  (MAX (NEXT_MULTIPLE (aligned_size v n) 4096) (100 * 4096))) (reserved a)
                = target).
  { rewrite CLAMP_TOP_min, MAX_max, Hpage, size_add_small by lia. reflexivity. }
  unfold alloc. fold (aligned_size v n).
  destruct (Z.geb_spec (used a) (reserved a)); [lia |].
  rewrite size_add_small by lia.
  destruct (Z.gtb_spec (used a + aligned_size v n) (committed a)); [| lia].
  rewrite Hcs.
  split; intros ->; cbn; split; reflexivity.
Qed.

Lemma C5_commit_size_witness :
  let a := {| base := 65536; used := 409600; committed := 409600;
              reserved := 1024 * 1024 * 1024 |} in
  (is_block (fst (alloc main_cc host_grants a 500000)) = true
   /\ committed (snd (alloc main_cc host_grants a 500000)) = 409600 + 503808)
  /\ (fst (alloc main_cc host_refuses a 500000) = CommitFailed
      /\ snd (alloc main_cc host_refuses a 500000) = a).
Proof.
  intros a. split.
  - apply (C5_commit_size main_cc host_grants a 500000);
      [vm_compute; intuition discriminate | cbn; lia | vm_compute; reflexivity
      | vm_compute; reflexivity | vm_compute; reflexivity | reflexivity].
  - apply (C5_commit_size main_cc host_refuses a 500000);
      [vm_compute; intuition discriminate | cbn; lia | vm_compute; reflexivity
      | vm_compute; reflexivity | vm_compute; reflexivity | reflexivity].
Defined.

(** ** Alignment *)

(** Counterexample to C6 as stated.  The granted request of
    [2^64 - 1] bytes on the fresh arena of [main] returns a block and
    consumes nothing: the sum inside [NEXT_MULTIPLE] wraps around. *)
Lemma C6_wrap_counterexample :
  let a := make 65536 (1024 * 1024 * 1024) in
  let n := 2 ^ 64 - 1 in
  let r := alloc main_cc host_grants a n in
  n > 0
  /\ fst r = Block 65536
  /\ used (snd r) - used a = 0
  /\ round_up n (granularity main_cc) = 2 ^ 64
  /\ used (snd r) - used a <> round_up n (granularity main_cc).
Proof. vm_compute. repeat split; intros E; discriminate E. Qed.

(** C6, amended.  For every call of [alloc] on an arena made by [make]
    and used through [alloc] only, with a size above 0 that can be
    rounded up to the granularity inside the range of [size_t], and that
    returns a block: the aligned size is the size rounded up to the
    next multiple of the granularity of the variant (8 in [main.cc], 16
    in [main.cpp]); [used] advances by it, in [size_t] arithmetic, and
    by exactly it when the sum stays in range; the address returned
    lies a multiple of the granularity above [base], so it is 8-byte
    aligned when [base] is. *)
Theorem C6_rounded_and_aligned v h a n :
  reachable v a ->
  0 < n -> n + granularity v - 1 < 2 ^ 64 ->
  is_block (fst (alloc v h a n)) = true ->
  aligned_size v n = round_up n (granularity v)
  /\ n <= aligned_size v n < n + granularity v
  /\ used (snd (alloc v h a n)) = size_add (used a) (round_up n (granularity v))
  /\ (used a + round_up n (granularity v) < 2 ^ 64 ->
      used (snd (alloc v h a n)) - used a = round_up n (granularity v))
  /\ (granularity v | ptr_of (fst (alloc v h a n)) - base a)
  /\ ((sizeof_ptr | base a) -> (sizeof_ptr | ptr_of (fst (alloc v h a n)))).
Proof.
  intros Hreach Hn Hov Hb.
  destruct (alloc_block _ _ _ _ Hb) as (_ & Hr & Hu & _ & _).
  pose proof (aligned_size_round_up v n ltac:(lia) Hov) as Hal.
  pose proof (round_up_bounds n (granularity v) ltac:(destruct v; cbn; lia)) as Hrb.
  pose proof (reachable_used_aligned v a Hreach) as Hdiv.
  destruct (reachable_well_typed v a Hreach) as ([Hu0 _] & _).
  rewrite Hr, Hu, Hal. cbn [ptr_of].
  split; [reflexivity |]. split; [exact Hrb |]. split; [reflexivity |].
  split; [| split].
  - intros Hnw. rewrite size_add_small by lia. lia.
  - replace (base a + used a - base a) with (used a) by lia. exact Hdiv.
  - intros Hbase. apply Z.divide_add_r; [exact Hbase |].
    apply Z.divide_trans with (granularity v); [| exact Hdiv].
    destruct v; [exists 1 | exists 2]; reflexivity.
Qed.

Lemma C6_rounded_and_aligned_witness :
  let a := snd (alloc main_cpp host_grants (make 65536 (1024 * 1024 * 1024)) 25) in
  aligned_size main_cpp 27 = 32
  /\ used (snd (alloc main_cpp host_grants a 27)) - used a = 32
  /\ (16 | ptr_of (fst (alloc main_cpp host_grants a 27)) - base a).
Proof.
  intros a.
  assert (Hreach : reachable main_cpp a).
  { apply reachable_alloc; [apply reachable_make |]; unfold is_size_t, SIZE_WIDTH; lia. }
  destruct (C6_rounded_and_aligned main_cpp host_grants a 27 Hreach
              ltac:(lia) ltac:(cbn; lia) eq_refl) as (H1 & _ & _ & H2 & H3 & _).
  split; [exact H1 | split; [apply H2; vm_compute; reflexivity | exact H3]].
Defined.

(** ** The boundary of the reservation *)

(** Counterexample to C7 as stated.  An arena with nothing committed
    and a request that fits exactly: the host refuses the commit and
    the call fails. *)
Lemma C7_refused_counterexample :
  let a := make 65536 4096 in
  used a < reserved a
  /\ used a <= committed a <= reserved a
  /\ aligned_size main_cpp 4096 = reserved a - used a
  /\ alloc main_cpp host_refuses a 4096 = (CommitFailed, a).
Proof. vm_compute. repeat split; intros E; discriminate E. Qed.

(** C7, amended.  For every arena with [used < reserved] and
    [used <= committed <= reserved], a call of [alloc] whose aligned
    size is exactly [reserved - used] returns a block and leaves
    [used = reserved], provided the host grants the commit the call
    asks for when [committed < reserved]; the next call, of any size
    and with any host, fails for exhaustion and changes nothing. *)
Theorem C7_exact_fit v h h' a n n' :
  well_typed a ->
  used a < reserved a ->
  used a <= committed a <= reserved a ->
  aligned_size v n = reserved a - used a ->
  (committed a < reserved a -> forall sz, h (base a) sz = true) ->
  fst (alloc v h a n) = Block (base a + used a)
  /\ used (snd (alloc v h a n)) = reserved (snd (alloc v h a n))
  /\ alloc v h' (snd (alloc v h a n)) n' = (OutOfReservedSpace, snd (alloc v h a n)).
Proof.
  intros (Hu & Hc & Hr) Hlt Hinv Hfit Hhost.
  unfold is_size_t, SIZE_WIDTH in *.
  assert (Hcall : fst (alloc v h a n) = Block (base a + used a)
                  /\ used (snd (alloc v h a n)) = reserved a
                  /\ reserved (snd (alloc v h a n)) = reserved a).
  { unfold alloc. fold (aligned_size v n). rewrite Hfit.
    destruct (Z.geb_spec (used a) (reserved a)); [lia |].
    rewrite size_add_small by lia.
    replace (used a + (reserved a - used a)) with (reserved a) by lia.
    assert (Hsum : size_add (used a) (reserved a - used a) = reserved a)
      by (rewrite size_add_small; lia).
    destruct (Z.gtb_spec (reserved a) (committed a)).
    - rewrite Hhost by lia.
      cbn [fst snd used base reserved committed set_used set_committed].
      rewrite Hsum. repeat split.
    - cbn [fst snd used base reserved committed set_used set_committed].
      rewrite Hsum. repeat split. }
  destruct Hcall as (H1 & H2 & H3).
  split; [exact H1 |]. split; [lia |].
  apply alloc_exhausted. lia.
Qed.

Lemma C7_exact_fit_witness :
  let a := make 65536 4096 in
  fst (alloc main_cpp host_grants a 4090) = Block 65536
  /\ used (snd (alloc main_cpp host_grants a 4090)) = 4096
  /\ alloc main_cpp host_refuses (snd (alloc main_cpp host_grants a 4090)) 1
     = (OutOfReservedSpace, snd (alloc main_cpp host_grants a 4090)).
Proof.
  intros a.
  apply (C7_exact_fit main_cpp host_grants host_refuses a 4090 1).
  - vm_compute. intuition discriminate.
  - cbn. lia.
  - cbn. lia.
  - vm_compute. reflexivity.
  - intros _ sz. reflexivity.
Defined.

End ArenaFacts.

(** * Facts about the path builder *)

Section PathFacts.

Import Path.

Lemma take_c_bytes s : take (length (c_bytes s)) s = c_bytes s.
Proof.
  induction s as [| c s IH]; [reflexivity |]. cbn.
  destruct (Ascii.eqb c NUL); [reflexivity |]. cbn. rewrite IH. reflexivity.
Qed.

Lemma c_bytes_length s : (length (c_bytes s) <= length s)%nat.
Proof.
  induction s as [| c s IH]; [reflexivity |]. cbn.
  destruct (Ascii.eqb c NUL); cbn; lia.
Qed.

Lemma strlen_nonneg s : 0 <= strlen s.
Proof. unfold strlen. lia. Qed.

(** A C string holds no terminator. *)
Lemma c_bytes_no_NUL s : NUL ∉ c_bytes s.
Proof.
  induction s as [| c s IH]; cbn; [apply not_elem_of_nil |].
  destruct (Ascii.eqb_spec c NUL) as [-> | Hne]; [apply not_elem_of_nil |].
  apply not_elem_of_cons. split; [congruence | exact IH].
Qed.

(** Reading a C string stops at the first terminator. *)
Lemma c_bytes_app_NUL s rest : NUL ∉ s -> c_bytes (s ++ NUL :: rest) = s.
Proof.
  induction s as [| c s IH]; intros Hs; cbn.
  - reflexivity.
  - apply not_elem_of_cons in Hs as [Hc Hs].
    destruct (Ascii.eqb_spec c NUL) as [-> | _]; [congruence |].
    rewrite IH by exact Hs. reflexivity.
Qed.

Lemma c_bytes_id s : NUL ∉ s -> c_bytes s = s.
Proof.
  induction s as [| c s IH]; intros Hs; cbn; [reflexivity |].
  apply not_elem_of_cons in Hs as [Hc Hs].
  destruct (Ascii.eqb_spec c NUL) as [-> | _]; [congruence |].
  rewrite IH by exact Hs. reflexivity.
Qed.

Lemma c_bytes_idemp s : c_bytes (c_bytes s) = c_bytes s.
Proof. apply c_bytes_id, c_bytes_no_NUL. Qed.

(** The test of [push_path] looks at the appended string alone. *)
Lemma push_path_refuses pb s :
  strlen s + 1 < 2 ^ 64 ->
  push_path pb s = Stop PathTooLong <-> MAX_PATH <= strlen s + 1.
Proof.
  intros Hs. pose proof (strlen_nonneg s) as H0. unfold push_path.
  rewrite size_add_small by lia.
  destruct (Z.geb_spec (strlen s + 1) MAX_PATH) as [Hge | Hlt].
  - split; [lia | reflexivity].
  - split; [| lia]. intros H.
    destruct (memcpy _ _ _ _); [destruct (store _ _ _) |]; discriminate H.
Qed.

(** A string that passes the test and does not fit is written all the
    same: a store lands outside the array. *)
Lemma push_path_overruns pb s :
  well_sized pb ->
  strlen s + 1 < MAX_PATH -> MAX_PATH <= used pb + strlen s ->
  push_path pb s = Stop BufferOverrun.
Proof.
  unfold well_sized, MAX_PATH. intros Hlen Hs Hov.
  pose proof (strlen_nonneg s) as H0. unfold push_path, MAX_PATH.
  rewrite (size_add_small (strlen s) 1) by lia.
  destruct (Z.geb_spec (strlen s + 1) 260); [lia |].
  unfold memcpy.
  destruct (Z.leb_spec 0 (used pb)); [| reflexivity].
  destruct (Z.leb_spec (used pb + strlen s) (Z.of_nat (length (buffer pb)))) as [Hle | _];
    [| reflexivity].
  cbn [andb]. unfold store.
  rewrite size_add_small by lia.
  destruct (Z.leb_spec 0 (used pb + strlen s)); [| reflexivity].
  match goal with |- context [?a <? ?b] => destruct (Z.ltb_spec a b) as [Hlt | _] end;
    [| reflexivity].
  exfalso. revert Hlt.
  rewrite !length_app, length_take, length_drop, length_take.
  pose proof (take_c_bytes s) as Ht.
  unfold strlen in *. lia.
Qed.

(** What an append that returns has done. *)
Lemma push_path_done pb s pb' :
  well_sized pb -> push_path pb s = Done pb' ->
  0 <= used pb
  /\ used pb' = used pb + strlen s
  /\ used pb' < MAX_PATH
  /\ well_sized pb'
  /\ take (Z.to_nat (used pb')) (buffer pb')
     = take (Z.to_nat (used pb)) (buffer pb) ++ c_bytes s
  /\ buffer pb' !! Z.to_nat (used pb') = Some NUL.
Proof.
  unfold well_sized, MAX_PATH. intros Hlen. unfold push_path.
  destruct (_ >=? _); [discriminate |].
  unfold memcpy.
  destruct (Z.leb_spec 0 (used pb)) as [Hu |]; [| discriminate].
  destruct (Z.leb_spec (used pb + strlen s) (Z.of_nat (length (buffer pb)))) as [Hle |];
    [| discriminate].
  cbn [andb]. pose proof (strlen_nonneg s) as H0.
  rewrite size_add_small by lia.
  set (buffer1 := take _ (buffer pb) ++ _ ++ _).
  assert (E1 : buffer1 = (take (Z.to_nat (used pb)) (buffer pb) ++ c_bytes s)
                           ++ drop (Z.to_nat (used pb + strlen s)) (buffer pb)).
  { subst buffer1. unfold strlen. rewrite Nat2Z.id, take_c_bytes, app_assoc. reflexivity. }
  assert (L0 : length (take (Z.to_nat (used pb)) (buffer pb) ++ c_bytes s)
               = Z.to_nat (used pb + strlen s)).
  { rewrite length_app, length_take. unfold strlen in *. lia. }
  assert (L1 : length buffer1 = length (buffer pb)).
  { rewrite E1, length_app, L0, length_drop. lia. }
  unfold store.
  destruct (Z.leb_spec 0 (used pb + strlen s)); [| lia].
  destruct (Z.ltb_spec (used pb + strlen s) (Z.of_nat (length buffer1))) as [Hlt |];
    [| discriminate].
  cbn [andb]. intros [= <-]. cbn [used buffer].
  repeat split; try lia.
  - rewrite length_insert. lia.
  - rewrite take_insert_ge by lia. rewrite E1.
    apply take_app_length'. symmetry. exact L0.
  - apply list_lookup_insert_eq. lia.
Qed.

(** An append that passes the test and fits returns. *)
Lemma push_path_fits pb s :
  well_sized pb -> 0 <= used pb ->
  strlen s + 1 < MAX_PATH -> used pb + strlen s < MAX_PATH ->
  exists pb', push_path pb s = Done pb'.
Proof.
  unfold well_sized, MAX_PATH. intros Hlen Hu Hs Hfit.
  pose proof (strlen_nonneg s) as H0. unfold push_path, MAX_PATH.
  rewrite (size_add_small (strlen s) 1) by lia.
  destruct (Z.geb_spec (strlen s + 1) 260); [lia |].
  unfold memcpy.
  destruct (Z.leb_spec 0 (used pb)); [| lia].
  destruct (Z.leb_spec (used pb + strlen s) (Z.of_nat (length (buffer pb)))); [| lia].
  cbn [andb]. unfold store. rewrite size_add_small by lia.
  destruct (Z.leb_spec 0 (used pb + strlen s)); [| lia].
  match goal with |- context [?a <? ?b] => destruct (Z.ltb_spec a b) as [| Hge] end.
  - eexists. reflexivity.
  - exfalso. revert Hge.
    rewrite !length_app, length_take, length_drop, length_take.
    pose proof (c_bytes_length s). unfold strlen in *. lia.
Qed.

Lemma reset_path_well_sized pb : well_sized pb -> well_sized (reset_path pb).
Proof. intros H. exact H. Qed.

Lemma zeroed_well_sized : well_sized zeroed.
Proof. reflexivity. Qed.

(** What a sequence of appends that all return has done. *)
Lemma push_all_done strs : forall pb pb',
  well_sized pb -> 0 <= used pb ->
  push_all pb strs = Done pb' ->
  well_sized pb'
  /\ used pb' = used pb + Z.of_nat (length (concat (map c_bytes strs)))
  /\ take (Z.to_nat (used pb')) (buffer pb')
     = take (Z.to_nat (used pb)) (buffer pb) ++ concat (map c_bytes strs)
  /\ (strs <> [] -> used pb' < MAX_PATH
                    /\ buffer pb' !! Z.to_nat (used pb') = Some NUL).
Proof.
  induction strs as [| s strs IH]; intros pb pb' Hws Hu H; cbn [push_all] in H.
  - injection H as <-. cbn. rewrite app_nil_r, Z.add_0_r. repeat split; congruence.
  - destruct (push_path pb s) as [pb1 |] eqn:E1; [| discriminate H]. cbn in H.
    destruct (push_path_done pb s pb1 Hws E1) as (_ & Hu1 & Hlt1 & Hws1 & Ht1 & Hn1).
    pose proof (strlen_nonneg s) as H0.
    destruct (IH pb1 pb' Hws1 ltac:(lia) H) as (Hws' & Hu' & Ht' & Hn').
    split; [exact Hws' |].
    split; [cbn [map concat]; rewrite length_app; unfold strlen in *; lia |].
    split; [cbn [map concat]; rewrite Ht', Ht1, <- app_assoc; reflexivity |].
    intros _. destruct strs as [| s' strs].
    + cbn in H. injection H as <-. split; [exact Hlt1 | exact Hn1].
    + apply Hn'. discriminate.
Qed.

(** ** The capacity check *)

(** C2.  A builder that holds 200 bytes and a string of 100 bytes:
    [L + n + 1] is 301, the test of [push_path] sees [n + 1 = 101] and
    lets the call through, and the copy runs past the 260 bytes of the
    buffer.  The call neither stops with the error exit nor stays
    inside the array. *)
Theorem C2_append_overruns :
  let root := repeat "a"%char 200 in
  let name := repeat "b"%char 100 in
  exists pb,
    push_path zeroed root = Done pb
    /\ used pb = 200
    /\ MAX_PATH <= used pb + strlen name + 1
    /\ push_path pb name = Stop BufferOverrun
    /\ push_path pb name <> Stop PathTooLong.
Proof.
  intros root name.
  destruct (push_path_fits zeroed root zeroed_well_sized) as [pb Hpb];
    [cbn; lia | vm_compute; reflexivity | vm_compute; reflexivity |].
  destruct (push_path_done zeroed root pb zeroed_well_sized Hpb)
    as (_ & Hu & _ & Hws & _).
  change (used zeroed + strlen root) with 200 in Hu.
  assert (Hov : push_path pb name = Stop BufferOverrun).
  { apply push_path_overruns; [exact Hws | vm_compute; reflexivity |].
    rewrite Hu. vm_compute. discriminate. }
  exists pb. rewrite Hov, Hu.
  repeat split; [exact Hpb | vm_compute; discriminate | discriminate].
Qed.

(** ** The contents of the buffer *)

(** C9.  After a reset, whenever the appends of a non-empty sequence of
    strings all return, the first [used] bytes of the buffer are the
    strings one after the other and the byte at [used] is the
    terminator; on a buffer of the declared size the appends of ["ab"]
    and ["cd"] after a reset do return, with [used = 4] and the five
    bytes ["abcd\0"] in the buffer. *)
Theorem C9_buffer_holds_concatenation pb :
  well_sized pb ->
  (forall strs pb',
      strs <> [] ->
      push_all (reset_path pb) strs = Done pb' ->
      take (Z.to_nat (used pb')) (buffer pb') = concat (map c_bytes strs)
      /\ buffer pb' !! Z.to_nat (used pb') = Some NUL
      /\ used pb' = Z.of_nat (length (concat (map c_bytes strs))))
  /\ (exists pb',
         push_all (reset_path pb) [lit "ab"; lit "cd"] = Done pb'
         /\ used pb' = 4
         /\ take 5 (buffer pb') = lit "abcd" ++ [NUL]).
Proof.
  intros Hws.
  assert (Hgen : forall strs pb',
      strs <> [] ->
      push_all (reset_path pb) strs = Done pb' ->
      take (Z.to_nat (used pb')) (buffer pb') = concat (map c_bytes strs)
      /\ buffer pb' !! Z.to_nat (used pb') = Some NUL
      /\ used pb' = Z.of_nat (length (concat (map c_bytes strs)))).
  { intros strs pb' Hne H.
    destruct (push_all_done strs (reset_path pb) pb' Hws ltac:(cbn; lia) H)
      as (_ & Hu & Ht & Hn).
    cbn in Hu, Ht. destruct (Hn Hne) as [_ Hnul].
    repeat split; [exact Ht | exact Hnul | lia]. }
  split; [exact Hgen |].
  destruct (push_path_fits (reset_path pb) (lit "ab") Hws) as [pb1 H1];
    [cbn; lia | vm_compute; reflexivity | vm_compute; reflexivity |].
  destruct (push_path_done (reset_path pb) _ _ Hws H1) as (_ & Hu1 & _ & Hws1 & _).
  change (used (reset_path pb) + strlen (lit "ab")) with 2 in Hu1.
  destruct (push_path_fits pb1 (lit "cd") Hws1) as [pb2 H2];
    [lia | vm_compute; reflexivity | rewrite Hu1; vm_compute; reflexivity |].
  assert (Hall : push_all (reset_path pb) [lit "ab"; lit "cd"] = Done pb2).
  { change (push_all (reset_path pb) [lit "ab"; lit "cd"])
      with (match push_path (reset_path pb) (lit "ab") with
            | Done pb1 => match push_path pb1 (lit "cd") with
                          | Done pb2 => Done pb2
                          | Stop e => Stop e
                          end
            | Stop e => Stop e
            end).
    rewrite H1, H2. reflexivity. }
  destruct (Hgen [lit "ab"; lit "cd"] pb2 ltac:(discriminate) Hall) as (Ht & Hn & Hu).
  change (Z.of_nat (length (concat (map c_bytes [lit "ab"; lit "cd"])))) with 4 in Hu.
  rewrite Hu in Ht, Hn.
  exists pb2. repeat split; [exact Hall | exact Hu |].
  change 5%nat with (S (Z.to_nat 4)).
  rewrite (take_S_r _ _ _ Hn), Ht. reflexivity.
Qed.

Lemma C9_buffer_holds_concatenation_witness :
  well_sized zeroed
  /\ exists pb',
      push_all (reset_path zeroed) [lit "ab"; lit "cd"] = Done pb'
      /\ used pb' = 4
      /\ take (Z.to_nat (used pb')) (buffer pb') = lit "abcd"
      /\ buffer pb' !! Z.to_nat (used pb') = Some NUL.
Proof.
  split; [reflexivity |].
  destruct (C9_buffer_holds_concatenation zeroed ltac:(reflexivity))
    as [Hgen (pb' & Hrun & Hu & _)].
  destruct (Hgen [lit "ab"; lit "cd"] pb' ltac:(discriminate) Hrun) as (Ht & Hn & _).
  exists pb'. repeat split; [exact Hrun | exact Hu | exact Ht | exact Hn].
Defined.

End PathFacts.

(** * Facts about lists in memory *)

Section ChainFacts.

Implicit Types (h : gmap Z Node.FileName) (p q t f : Z) (ps qs : list Z).

Lemma chain_head h p ps : chain h p ps -> exists ps', ps = p :: ps'.
Proof. destruct 1; eauto. Qed.

(** Following [next] is deterministic. *)
Lemma chain_functional h p ps : chain h p ps -> forall ps', chain h p ps' -> ps = ps'.
Proof.
  induction 1 as [p n Hp Hn Hnx | p n ps Hp Hn Hnx Hch IH]; intros ps' H';
    inversion H' as [p' n' Hp' Hn' Hnx' | p' n' ps'' Hp' Hn' Hnx' Hch']; subst;
    rewrite Hn in Hn'; injection Hn' as <-.
  - reflexivity.
  - contradiction.
  - contradiction.
  - f_equal. apply IH. exact Hch'.
Qed.

(** From every node of a chain the rest of the chain is a chain. *)
Lemma chain_suffix h p ps q :
  chain h p ps -> q ∈ ps -> exists pre suf, ps = pre ++ suf /\ chain h q suf.
Proof.
  induction 1 as [p n Hp Hn Hnx | p n ps Hp Hn Hnx Hch IH]; intros Hq.
  - apply list_elem_of_singleton in Hq as ->.
    exists [], [p]. split; [reflexivity | eapply chain_last; eassumption].
  - apply elem_of_cons in Hq as [-> | Hq].
    + exists [], (p :: ps). split; [reflexivity | eapply chain_link; eassumption].
    + destruct (IH Hq) as (pre & suf & -> & Hsuf).
      exists (p :: pre), suf. split; [reflexivity | exact Hsuf].
Qed.

Lemma chain_not_in_tail h p ps : chain h p (p :: ps) -> p ∉ ps.
Proof.
  intros Hch Hin.
  inversion Hch as [p' n' Hp' Hn' Hnx' | p' n' ps' Hp' Hn' Hnx' Hch']; subst.
  - inversion Hin.
  - destruct (chain_suffix _ _ _ _ Hch' Hin) as (pre & suf & E & Hsuf).
    pose proof (chain_functional _ _ _ Hsuf _ Hch) as ->.
    apply (f_equal length) in E. rewrite length_app in E. cbn in E. lia.
Qed.

Lemma chain_NoDup h p ps : chain h p ps -> NoDup ps.
Proof.
  intros Hch. induction Hch as [p n Hp Hn Hnx | p n ps Hp Hn Hnx Hch IH].
  - apply NoDup_singleton.
  - apply NoDup_cons. split; [| exact IH].
    exact (chain_not_in_tail h p ps (chain_link h p n ps Hp Hn Hnx Hch)).
Qed.

(** The nodes of a chain are in memory, none at the null address. *)
Lemma chain_nodes h p ps q :
  chain h p ps -> q ∈ ps -> q <> Arena.NULL /\ is_Some (h !! q).
Proof.
  induction 1 as [p n Hp Hn Hnx | p n ps Hp Hn Hnx Hch IH]; intros Hq.
  - apply list_elem_of_singleton in Hq as ->. split; [exact Hp | eauto].
  - apply elem_of_cons in Hq as [-> | Hq]; [split; [exact Hp | eauto] | auto].
Qed.

(** A chain is no longer than memory holds nodes. *)
Lemma chain_length h p ps : chain h p ps -> (length ps <= size h)%nat.
Proof.
  intros Hch.
  rewrite <- (size_list_to_set (C := gset Z) ps) by (eapply chain_NoDup; exact Hch).
  rewrite <- (size_dom h). apply subseteq_size.
  intros q Hq. apply elem_of_list_to_set in Hq.
  apply elem_of_dom. eapply chain_nodes; eassumption.
Qed.

Lemma chain_last_node h p ps :
  chain h p ps ->
  exists t n, last ps = Some t /\ t ∈ ps /\ h !! t = Some n /\ Node.next n = Arena.NULL.
Proof.
  induction 1 as [p n Hp Hn Hnx | p n ps Hp Hn Hnx Hch IH].
  - exists p, n. repeat split; [apply list_elem_of_singleton; reflexivity | assumption..].
  - destruct IH as (t & nt & Hl & Hin & Ht & Hnt).
    exists t, nt. rewrite last_cons, Hl.
    repeat split; [apply elem_of_cons; right; exact Hin | assumption..].
Qed.

(** The tail walk on a chain finds its last node, given fuel for every
    node of the chain. *)
Lemma walk_to_tail_chain m q suf t :
  chain (heap m) q suf -> last suf = Some t ->
  forall fuel, (length suf <= fuel)%nat -> walk_to_tail fuel q m = Done (t, m).
Proof.
  induction 1 as [p n Hp Hn Hnx | p n ps Hp Hn Hnx Hch IH]; intros Hl fuel Hfuel;
    (destruct fuel as [| fuel]; [cbn in Hfuel; lia |]); cbn [walk_to_tail].
  - unfold mbind, Run_bind, load_next.
    destruct (Z.eqb_spec p Arena.NULL); [contradiction |].
    rewrite Hn, Hnx. cbn.
    cbn in Hl. injection Hl as <-. reflexivity.
  - unfold mbind, Run_bind, load_next.
    destruct (Z.eqb_spec p Arena.NULL); [contradiction |].
    rewrite Hn.
    destruct (Z.eqb_spec (Node.next n) Arena.NULL); [contradiction |].
    apply IH; [| cbn in Hfuel; lia].
    rewrite last_cons in Hl. destruct (last ps) eqn:E; [exact Hl |].
    destruct (chain_last_node _ _ _ Hch) as (t' & _ & Hl' & _). congruence.
Qed.

(** [find_tail] from any node of a chain returns the last node. *)
Lemma find_tail_chain m p ps q t :
  chain (heap m) p ps -> q ∈ ps -> last ps = Some t ->
  find_tail q m = Done (t, m).
Proof.
  intros Hch Hq Hl.
  destruct (chain_suffix _ _ _ _ Hch Hq) as (pre & suf & -> & Hsuf).
  destruct (chain_last_node _ _ _ Hsuf) as (t' & _ & Hl' & _).
  assert (t' = t) as ->.
  { rewrite last_app, Hl' in Hl. congruence. }
  unfold find_tail. eapply walk_to_tail_chain; [exact Hsuf | exact Hl' |].
  pose proof (chain_length _ _ _ Hch) as Hlen.
  rewrite length_app in Hlen. lia.
Qed.

(** A tail walk that ends, with whatever fuel, has followed a chain. *)
Lemma walk_to_tail_done fuel : forall m q t m',
  walk_to_tail fuel q m = Done (t, m') ->
  m' = m /\ exists suf, chain (heap m) q suf /\ last suf = Some t.
Proof.
  induction fuel as [| fuel IH]; intros m q t m' H; [discriminate H |].
  cbn [walk_to_tail] in H. unfold mbind, Run_bind, load_next in H.
  destruct (Z.eqb_spec q Arena.NULL) as [| Hq]; [discriminate H |].
  destruct (heap m !! q) as [n |] eqn:Hn; [| discriminate H].
  destruct (Z.eqb_spec (Node.next n) Arena.NULL) as [Hnx | Hnx].
  - injection H as <- <-. split; [reflexivity |].
    exists [q]. split; [eapply chain_last; eassumption | reflexivity].
  - destruct (IH _ _ _ _ H) as (-> & suf & Hch & Hl). split; [reflexivity |].
    exists (q :: suf). split; [eapply chain_link; eassumption |].
    rewrite last_cons, Hl. reflexivity.
Qed.

(** The fuel of [find_tail] never cuts a walk short: a walk that ends
    with some fuel ends with that of [find_tail], at the same node. *)
Lemma find_tail_fuel_enough fuel m q r :
  walk_to_tail fuel q m = Done r -> find_tail q m = Done r.
Proof.
  destruct r as [t m']. intros H.
  destruct (walk_to_tail_done _ _ _ _ _ H) as (-> & suf & Hch & Hl).
  unfold find_tail. eapply walk_to_tail_chain; [exact Hch | exact Hl |].
  pose proof (chain_length _ _ _ Hch). lia.
Qed.

(** A store to an address off the chain leaves the chain as it is. *)
Lemma chain_insert_fresh h p ps f n :
  chain h p ps -> f ∉ ps -> chain (<[f := n]> h) p ps.
Proof.
  induction 1 as [p n' Hp Hn Hnx | p n' ps Hp Hn Hnx Hch IH]; intros Hf.
  - apply not_elem_of_cons in Hf as [Hf _].
    eapply chain_last; [exact Hp | rewrite lookup_insert_ne by congruence; exact Hn | exact Hnx].
  - apply not_elem_of_cons in Hf as [Hf Hf'].
    eapply chain_link; [exact Hp | rewrite lookup_insert_ne by congruence; exact Hn
                       | exact Hnx | apply IH, Hf'].
Qed.

(** Linking a node off the chain behind the last node extends the chain
    by that node. *)
Lemma chain_append h p ps t f nf :
  chain h p ps -> last ps = Some t ->
  f ∉ ps -> f <> Arena.NULL -> h !! f = Some nf -> Node.next nf = Arena.NULL ->
  chain (<[t := Node.set_next f (node_at h t)]> h) p (ps ++ [f]).
Proof.
  intros Hch. revert t.
  induction Hch as [p n Hp Hn Hnx | p n ps Hp Hn Hnx Hch IH];
    intros t Hl Hf Hf0 Hnf Hnf0.
  - cbn in Hl. injection Hl as <-.
    apply not_elem_of_cons in Hf as [Hf _].
    eapply chain_link with (n := Node.set_next f (node_at h p)).
    + exact Hp.
    + apply lookup_insert_eq.
    + exact Hf0.
    + cbn. eapply chain_last; [exact Hf0 | | exact Hnf0].
      rewrite lookup_insert_ne by congruence. exact Hnf.
  - apply not_elem_of_cons in Hf as [Hfp Hf].
    destruct (chain_last_node _ _ _ Hch) as (t' & _ & Hl' & Hin' & _).
    rewrite last_cons, Hl' in Hl. injection Hl as <-.
    assert (Hpt : p <> t').
    { intros E. rewrite <- E in Hin'.
      exact (chain_not_in_tail h p ps (chain_link h p n ps Hp Hn Hnx Hch) Hin'). }
    cbn [app]. eapply chain_link.
    + exact Hp.
    + rewrite lookup_insert_ne by congruence. exact Hn.
    + exact Hnx.
    + apply IH; assumption.
Qed.

Lemma node_at_insert h p n : node_at (<[p := n]> h) p = n.
Proof. unfold node_at. rewrite lookup_insert_eq. reflexivity. Qed.

Lemma node_at_insert_ne h p q n : p <> q -> node_at (<[p := n]> h) q = node_at h q.
Proof. intros H. unfold node_at. rewrite lookup_insert_ne by exact H. reflexivity. Qed.

(** The three stores through [file] leave one node there. *)
Lemma stores_to_file h file len nm :
  let h1 := <[file := Node.set_length len (node_at h file)]> h in
  let h2 := <[file := Node.set_next Arena.NULL (node_at h1 file)]> h1 in
  <[file := Node.set_name nm (node_at h2 file)]> h2
  = <[file := {| Node.length := len; Node.next := Arena.NULL; Node.name := nm |}]> h.
Proof.
  intros h1 h2. subst h2 h1.
  rewrite !node_at_insert, !insert_insert_eq. reflexivity.
Qed.

(** A fresh node, filled in and linked behind the last node of a chain. *)
Lemma link_node h p0 ps t file len nm :
  chain h p0 ps -> last ps = Some t ->
  h !! file = None -> file <> Arena.NULL ->
  let h3 := <[file := {| Node.length := len; Node.next := Arena.NULL;
                         Node.name := nm |}]> h in
  let h4 := <[t := Node.set_next file (node_at h3 t)]> h3 in
  chain h4 p0 (ps ++ [file])
  /\ path_at h4 file = c_bytes nm
  /\ (forall q, q ∈ ps -> path_at h4 q = path_at h q)
  /\ (forall p n, h4 !! p = Some n ->
                  (exists n0, h !! p = Some n0 /\ Node.name n = Node.name n0)
                  \/ (p = file /\ Node.name n = nm)).
Proof.
  intros Hch Hl Hfresh Hfile h3 h4.
  assert (Hnot : file ∉ ps).
  { intros Hin. destruct (chain_nodes _ _ _ _ Hch Hin) as [_ [n Hn]]. congruence. }
  destruct (chain_last_node _ _ _ Hch) as (t' & nt & Hl' & Hin & Ht & _).
  assert (t' = t) as -> by congruence.
  assert (Hne : file <> t) by (intros ->; contradiction).
  split; [| split; [| split]].
  - subst h4. eapply chain_append.
    + apply chain_insert_fresh; eassumption.
    + exact Hl.
    + exact Hnot.
    + exact Hfile.
    + subst h3. apply lookup_insert_eq.
    + reflexivity.
  - unfold path_at. subst h4. rewrite node_at_insert_ne by congruence.
    subst h3. rewrite node_at_insert. reflexivity.
  - intros q Hq. unfold path_at. subst h4.
    destruct (decide (q = t)) as [-> | Hqt].
    + rewrite node_at_insert. cbn. subst h3.
      rewrite node_at_insert_ne by exact Hne. reflexivity.
    + rewrite node_at_insert_ne by congruence. subst h3.
      rewrite node_at_insert_ne; [reflexivity |]. intros ->. contradiction.
  - intros p n Hp. subst h4.
    destruct (decide (p = t)) as [-> | Hpt].
    + rewrite lookup_insert_eq in Hp. injection Hp as <-. left. exists nt.
      split; [exact Ht |]. cbn. subst h3. rewrite node_at_insert_ne by exact Hne.
      unfold node_at. rewrite Ht. reflexivity.
    + rewrite lookup_insert_ne in Hp by congruence. subst h3.
      destruct (decide (p = file)) as [-> | Hpf].
      * rewrite lookup_insert_eq in Hp. injection Hp as <-. right. split; reflexivity.
      * rewrite lookup_insert_ne in Hp by congruence. left. exists n. split; [exact Hp | reflexivity].
Qed.

End ChainFacts.

(** * Facts about the walk *)

Section WalkFacts.

Variable v : variant.
Variable host : Z -> Z -> bool.

(** Induction over what the host enumerates. *)
Lemma dirent_ind (P : dirent -> Prop) :
  (forall attrs cFileName contents,
      Forall P contents -> P (Dirent attrs cFileName contents)) ->
  forall e, P e.
Proof.
  intros step. fix IH 1. intros [attrs cFileName contents].
  apply step. induction contents as [| e contents IHc]; constructor.
  - apply IH.
  - exact IHc.
Qed.

Lemma bind_done {A B : Type} (c : Run A) (f : A -> Run B) m r :
  (c ≫= f) m = Done r ->
  exists a m1, c m = Done (a, m1) /\ f a m1 = Done r.
Proof.
  unfold mbind, Run_bind. destruct (c m) as [[a m1] | e]; [| discriminate].
  intros H. exists a, m1. split; [reflexivity | exact H].
Qed.

Lemma bind_stop {A B : Type} (c : Run A) (f : A -> Run B) m e :
  c m = Stop e -> (c ≫= f) m = Stop e.
Proof. unfold mbind, Run_bind. intros ->. reflexivity. Qed.

Lemma bind_step {A B : Type} (c : Run A) (f : A -> Run B) m a m1 :
  c m = Done (a, m1) -> (c ≫= f) m = f a m1.
Proof. unfold mbind, Run_bind. intros ->. reflexivity. Qed.

Lemma lift_done {A : Type} (o : outcome A) m a m1 :
  lift o m = Done (a, m1) -> o = Done a /\ m1 = m.
Proof. unfold lift. destruct o; [| discriminate]. intros [= -> ->]. split; reflexivity. Qed.

Lemma ret_done {A : Type} (x : A) m a m1 :
  (mret x : Run A) m = Done (a, m1) -> a = x /\ m1 = m.
Proof. unfold mret, Run_ret. intros [= -> ->]. split; reflexivity. Qed.

Lemma store_field_done upd p m u m1 :
  store_field upd p m = Done (u, m1) ->
  p <> Arena.NULL
  /\ arena m1 = arena m
  /\ heap m1 = <[p := upd (node_at (heap m) p)]> (heap m).
Proof.
  unfold store_field. destruct (Z.eqb_spec p Arena.NULL); [discriminate |].
  intros [= _ <-]. cbn. repeat split. assumption.
Qed.

(** The store through a null pointer. *)
Lemma store_field_null upd m : store_field upd Arena.NULL m = Stop NullWrite.
Proof. reflexivity. Qed.

Lemma call_alloc_done n m :
  call_alloc v host n m
  = Done (Arena.ptr_of (fst (Arena.alloc v host (arena m) n)),
          {| arena := snd (Arena.alloc v host (arena m) n); heap := heap m |}).
Proof. reflexivity. Qed.

(** One unfolding of the loop body. *)
Lemma loop_body_eq root attrs cFileName contents st :
  loop_body v host root (Dirent attrs cFileName contents) st
  = if is_pseudo cFileName then mret st
    else
      pattern ← lift (Path.push_path (Path.reset_path (fst st)) root);
      pattern ← lift (Path.push_path pattern (lit "\"));
      pattern ← lift (Path.push_path pattern cFileName);
      file ← call_alloc v host (size_add sizeof_FileName
                                  (size_mul (Path.used pattern) sizeof_char));
      store_field (Node.set_length (Path.used pattern)) file;;
      store_field (Node.set_next Arena.NULL) file;;
      store_field (Node.set_name
                     (firstn (Z.to_nat (size_add (Path.used pattern) 1))
                             (Path.buffer pattern))) file;;
      strings ← find_tail (snd st);
      store_field (Node.set_next file) strings;;
      (if is_directory attrs
       then get_file_list_custom v host (Path.buffer pattern) contents strings
       else mret tt);;
      mret (pattern, strings).
Proof. reflexivity. Qed.

(** The three appends of the loop body, as one sequence. *)
Lemma push_all_three pb a b c pattern :
  Path.push_all pb [a; b; c] = Done pattern ->
  exists p1 p2,
    Path.push_path pb a = Done p1
    /\ Path.push_path p1 b = Done p2
    /\ Path.push_path p2 c = Done pattern.
Proof.
  cbn [Path.push_all]. unfold mbind, outcome_bind.
  destruct (Path.push_path pb a) as [p1 |] eqn:E1; [| discriminate].
  destruct (Path.push_path p1 b) as [p2 |] eqn:E2; [| discriminate].
  destruct (Path.push_path p2 c) as [p3 |] eqn:E3; [| discriminate].
  intros [= <-]. exists p1, p2. repeat split; assumption.
Qed.

(** ** The result of [alloc] is used unchecked *)

(** C10.  For every entry the loop body processes (not [.] or [..], its
    path built by the three appends): when the call of [alloc] returns
    the null pointer, whether for exhaustion or for a failed commit, the
    run goes on to the store [file->length = pattern.used] and stops
    there, in a store through the null pointer.  No test of the result
    stands between the call and the store. *)
Theorem C10_null_result_is_written root attrs cFileName contents st m pattern :
  is_pseudo cFileName = false ->
  Path.push_all (Path.reset_path (fst st)) [root; lit "\"; cFileName] = Done pattern ->
  Arena.ptr_of (fst (Arena.alloc v host (arena m)
                       (size_add sizeof_FileName
                                 (size_mul (Path.used pattern) sizeof_char))))
  = Arena.NULL ->
  loop_body v host root (Dirent attrs cFileName contents) st m = Stop NullWrite.
Proof.
  intros Hpseudo Hpush Hnull.
  destruct (push_all_three _ _ _ _ _ Hpush) as (p1 & p2 & E1 & E2 & E3).
  rewrite loop_body_eq, Hpseudo.
  rewrite (bind_step _ _ m p1 m) by (rewrite E1; reflexivity).
  rewrite (bind_step _ _ m p2 m) by (rewrite E2; reflexivity).
  rewrite (bind_step _ _ m pattern m) by (rewrite E3; reflexivity).
  erewrite bind_step by apply call_alloc_done.
  rewrite Hnull. apply bind_stop, store_field_null.
Qed.

(** ** The order of the list *)

Lemma discovered_root root root' e :
  c_bytes root = c_bytes root' -> discovered root e = discovered root' e.
Proof. intros E. destruct e as [attrs cFileName contents]. cbn. unfold join. rewrite E. reflexivity. Qed.

Lemma preorder_root root root' entries :
  c_bytes root = c_bytes root' -> preorder root entries = preorder root' entries.
Proof.
  intros E. unfold preorder. induction entries as [| e entries IH]; cbn; [reflexivity |].
  rewrite IH, (discovered_root root root' e E). reflexivity.
Qed.

Lemma join_no_NUL root cFileName : NUL ∉ join root cFileName.
Proof.
  unfold join. rewrite !not_elem_of_app. repeat split.
  - apply c_bytes_no_NUL.
  - cbn. intros H. apply list_elem_of_singleton in H. discriminate H.
  - apply c_bytes_no_NUL.
Qed.

(** The pattern after the three appends of the loop body. *)
Lemma pattern_built pb root cFileName pattern :
  Path.well_sized pb ->
  Path.push_all (Path.reset_path pb) [root; lit "\"; cFileName] = Done pattern ->
  Path.well_sized pattern
  /\ 0 <= Path.used pattern < MAX_PATH
  /\ Path.used pattern = Z.of_nat (length (join root cFileName))
  /\ c_bytes (Path.buffer pattern) = join root cFileName
  /\ c_bytes (take (Z.to_nat (size_add (Path.used pattern) 1)) (Path.buffer pattern))
     = join root cFileName.
Proof.
  intros Hws H.
  destruct (push_all_done _ (Path.reset_path pb) pattern Hws ltac:(cbn; lia) H)
    as (Hws' & Hu & Ht & Hn).
  destruct (Hn ltac:(discriminate)) as [Hlt Hnul]. clear Hn.
  cbn [Path.used Path.reset_path Path.buffer take app] in Hu, Ht.
  assert (Hj : concat (map c_bytes [root; lit "\"; cFileName]) = join root cFileName).
  { cbn [map concat]. rewrite app_nil_r. reflexivity. }
  rewrite Hj in Hu, Ht.
  split; [exact Hws' |]. split; [lia |]. split; [lia |]. split.
  - rewrite <- (take_drop_middle _ _ _ Hnul), Ht.
    apply c_bytes_app_NUL, join_no_NUL.
  - rewrite size_add_small by (unfold MAX_PATH in Hlt; lia).
    replace (Z.to_nat (Path.used pattern + 1)) with (S (Z.to_nat (Path.used pattern))) by lia.
    rewrite (take_S_r _ _ _ Hnul), Ht.
    apply c_bytes_app_NUL, join_no_NUL.
Qed.

Lemma alloc_nonnull h a n :
  Arena.ptr_of (fst (Arena.alloc v h a n)) <> Arena.NULL ->
  Arena.is_block (fst (Arena.alloc v h a n)) = true.
Proof. destruct (fst (Arena.alloc v h a n)); cbn; congruence. Qed.

(** The node for a path of [u] bytes, in a tidy machine: the block
    starts at the frontier, above every node in memory, and the frontier
    moves up past it. *)
Lemma alloc_node m u :
  tidy m -> 0 <= u < MAX_PATH ->
  let ra := Arena.alloc v host (arena m)
              (size_add sizeof_FileName (size_mul u sizeof_char)) in
  let file := Arena.ptr_of (fst ra) in
  file <> Arena.NULL ->
  heap m !! file = None
  /\ forall h',
      (forall p n, h' !! p = Some n ->
                   (exists n0, heap m !! p = Some n0 /\ Node.name n = Node.name n0)
                   \/ (p = file /\ Z.of_nat (length (Node.name n)) <= u + 1)) ->
      tidy {| arena := snd ra; heap := h' |}.
Proof.
  intros (Hu0 & Hres & Hbelow) Hu ra file Hfile.
  pose proof (alloc_nonnull _ _ _ Hfile) as Hb.
  destruct (alloc_block _ _ _ _ Hb) as (Hlt & Hr & Hused & Hbase & Hreserved).
  fold ra in Hr, Hused, Hbase, Hreserved.
  assert (Hsize : size_add sizeof_FileName (size_mul u sizeof_char) = 24 + u).
  { unfold size_mul, sizeof_char, sizeof_FileName, MAX_PATH in *.
    rewrite Z.mul_1_r, wrap_small by (unfold is_size_t, SIZE_WIDTH; lia).
    apply size_add_small. lia. }
  rewrite Hsize in Hused.
  assert (Hal : Arena.aligned_size v (24 + u) = round_up (24 + u) (granularity v)).
  { apply aligned_size_round_up; unfold MAX_PATH in *; destruct v; cbn; lia. }
  pose proof (round_up_bounds (24 + u) (granularity v) ltac:(destruct v; cbn; lia)) as Hrb.
  assert (Hg : granularity v <= 16) by (destruct v; cbn; lia).
  unfold MAX_PATH in Hu.
  rewrite Hal, size_add_small in Hused by lia.
  assert (Hfile' : file = Arena.base (arena m) + Arena.used (arena m)).
  { unfold file. rewrite Hr. reflexivity. }
  unfold node_end, sizeof_FileName, offsetof_name in *.
  split.
  - destruct (heap m !! file) as [n |] eqn:E; [| reflexivity].
    specialize (Hbelow _ _ E). lia.
  - intros h' Hh'. unfold tidy, node_end, sizeof_FileName, offsetof_name. cbn [arena heap].
    rewrite Hused, Hbase, Hreserved.
    split; [lia |]. split; [exact Hres |].
    intros p n Hp. destruct (Hh' p n Hp) as [(n0 & Hn0 & Hname) | [-> Hlen]].
    + specialize (Hbelow _ _ Hn0). rewrite Hname. lia.
    + lia.
Qed.

(** The machine after the link: the list has grown by the new node,
    which holds the path. *)
Lemma linked_grown root cFileName m pattern p0 ps t :
  tidy m -> 0 <= Path.used pattern < MAX_PATH ->
  c_bytes (take (Z.to_nat (size_add (Path.used pattern) 1)) (Path.buffer pattern))
  = join root cFileName ->
  chain (heap m) p0 ps -> last ps = Some t ->
  let file := Arena.ptr_of (fst (Arena.alloc v host (arena m)
                (size_add sizeof_FileName (size_mul (Path.used pattern) sizeof_char)))) in
  file <> Arena.NULL ->
  grown m (linked_machine v host m pattern t) p0 ps [file] [join root cFileName].
Proof.
  intros Ht Hu Hname Hch Hl file Hfile.
  destruct (alloc_node m (Path.used pattern) Ht Hu Hfile) as [Hfresh Htidy].
  destruct (link_node (heap m) p0 ps t file (Path.used pattern)
              (take (Z.to_nat (size_add (Path.used pattern) 1)) (Path.buffer pattern))
              Hch Hl Hfresh Hfile) as (Hch9 & Hpath & Hkeep & Hdom).
  unfold grown, linked_machine. cbn [heap]. fold file.
  split; [exact Hch9 |]. split; [cbn [map]; rewrite Hpath, Hname; reflexivity |].
  split; [exact Hkeep |].
  apply Htidy. intros p n Hp.
  destruct (Hdom p n Hp) as [Hold | [-> ->]]; [left; exact Hold |].
  right. split; [reflexivity |]. rewrite length_take.
  rewrite size_add_small by (unfold MAX_PATH in Hu; lia). lia.
Qed.

Lemma grown_refl m p0 ps : tidy m -> chain (heap m) p0 ps -> grown m m p0 ps [] [].
Proof.
  intros Ht Hch. unfold grown. rewrite app_nil_r. repeat split; try assumption; apply Ht.
Qed.

Lemma grown_trans m m1 m2 p0 ps qs1 qs2 paths1 paths2 :
  grown m m1 p0 ps qs1 paths1 ->
  grown m1 m2 p0 (ps ++ qs1) qs2 paths2 ->
  grown m m2 p0 ps (qs1 ++ qs2) (paths1 ++ paths2).
Proof.
  intros (Hc1 & Hp1 & Hk1 & Ht1) (Hc2 & Hp2 & Hk2 & Ht2).
  split; [rewrite app_assoc; exact Hc2 |].
  split; [| split; [| exact Ht2]].
  - rewrite map_app, Hp2. f_equal. rewrite <- Hp1.
    apply map_ext_in. intros q Hq. apply Hk2.
    apply elem_of_app. right. apply list_elem_of_In. exact Hq.
  - intros q Hq. rewrite Hk2 by (apply elem_of_app; left; exact Hq). apply Hk1, Hq.
Qed.

(** The loop over the entries, given what each iteration does. *)
Lemma do_while_grows root entries :
  Forall (iteration_grows v host) entries ->
  forall st m st' m' p0 ps,
    Path.well_sized (fst st) -> tidy m ->
    chain (heap m) p0 ps -> snd st ∈ ps ->
    do_while (loop_body v host root) entries st m = Done (st', m') ->
    Path.well_sized (fst st')
    /\ exists qs, snd st' ∈ ps ++ qs /\ grown m m' p0 ps qs (preorder root entries).
Proof.
  induction 1 as [| e entries He _ IH]; intros st m st' m' p0 ps Hws Ht Hch Hin H.
  - apply ret_done in H as [-> ->]. split; [exact Hws |].
    exists []. rewrite app_nil_r. split; [exact Hin | apply grown_refl; assumption].
  - cbn [do_while] in H. apply bind_done in H as (st1 & m1 & H1 & H).
    destruct (He root st m st1 m1 p0 ps Hws Ht Hch Hin H1) as (Hws1 & qs1 & Hin1 & Hg1).
    destruct (IH st1 m1 st' m' p0 (ps ++ qs1) Hws1 ltac:(apply Hg1) ltac:(apply Hg1) Hin1 H)
      as (Hws' & qs2 & Hin2 & Hg2).
    split; [exact Hws' |]. exists (qs1 ++ qs2).
    split; [rewrite app_assoc; exact Hin2 |].
    exact (grown_trans _ _ _ _ _ _ _ _ _ Hg1 Hg2).
Qed.

(** The whole call, given what each iteration does. *)
Lemma get_file_list_grows root entries :
  Forall (iteration_grows v host) entries ->
  forall strings m u m' p0 ps,
    tidy m -> chain (heap m) p0 ps -> strings ∈ ps ->
    get_file_list_custom v host root entries strings m = Done (u, m') ->
    exists qs, grown m m' p0 ps qs (preorder root entries).
Proof.
  intros Hall strings m u m' p0 ps Ht Hch Hin H.
  unfold get_file_list_custom, get_file_list_with in H.
  apply bind_done in H as (p1 & m1 & H1 & H). apply lift_done in H1 as [E1 ->].
  apply bind_done in H as (p2 & m2 & H2 & H). apply lift_done in H2 as [E2 ->].
  destruct (push_path_done _ _ _ zeroed_well_sized E1) as (_ & _ & _ & Hws1 & _).
  destruct (push_path_done _ _ _ Hws1 E2) as (_ & _ & _ & Hws2 & _).
  destruct entries as [| e entries]; [discriminate H |].
  apply bind_done in H as (st' & m3 & H3 & H). apply ret_done in H as [_ <-].
  destruct (do_while_grows root (e :: entries) Hall (p2, strings) m st' m' p0 ps
              Hws2 Ht Hch Hin H3) as (_ & qs & _ & Hg).
  exists qs. exact Hg.
Qed.

(** One iteration, for every entry: by induction over what the host
    enumerates below the entry. *)
Lemma loop_body_grows e : iteration_grows v host e.
Proof.
  induction e as [attrs cFileName contents IH] using dirent_ind.
  intros root st m st' m' p0 ps Hws Ht Hch Hin H.
  rewrite loop_body_eq in H. cbn [discovered].
  destruct (is_pseudo cFileName).
  { apply ret_done in H as [-> ->]. split; [exact Hws |].
    exists []. rewrite app_nil_r. split; [exact Hin | apply grown_refl; assumption]. }
  apply bind_done in H as (p1 & m1 & H1 & H). apply lift_done in H1 as [E1 ->].
  apply bind_done in H as (p2 & m2 & H2 & H). apply lift_done in H2 as [E2 ->].
  apply bind_done in H as (pattern & m3 & H3 & H). apply lift_done in H3 as [E3 ->].
  assert (Hpush : Path.push_all (Path.reset_path (fst st)) [root; lit "\"; cFileName]
                  = Done pattern).
  { cbn [Path.push_all]. unfold mbind, outcome_bind. rewrite E1, E2, E3. reflexivity. }
  destruct (pattern_built _ _ _ _ Hws Hpush) as (Hwsp & Hu & _ & Hbuf & Hname).
  apply bind_done in H as (file & m4 & H4 & H).
  rewrite call_alloc_done in H4. injection H4 as Efile Em4.
  apply bind_done in H as (u1 & m5 & H5 & H).
  apply store_field_done in H5 as (Hfile & Ha5 & Hh5).
  apply bind_done in H as (u2 & m6 & H6 & H).
  apply store_field_done in H6 as (_ & Ha6 & Hh6).
  apply bind_done in H as (u3 & m7 & H7 & H).
  apply store_field_done in H7 as (_ & Ha7 & Hh7).
  apply bind_done in H as (t & m8 & H8 & H).
  apply bind_done in H as (u4 & m9 & H9 & H).
  apply store_field_done in H9 as (Ht0 & Ha9 & Hh9).
  apply bind_done in H as (u5 & m10 & H10 & H).
  apply ret_done in H as [-> ->].
  (* the block *)
  pose proof (alloc_node m (Path.used pattern) Ht Hu) as Hnode. cbn zeta in Hnode.
  rewrite Efile in Hnode. destruct (Hnode Hfile) as [Hfresh Htidy]. clear Hnode.
  (* the three stores *)
  assert (Hh7' : heap m7
                 = <[file := {| Node.length := Path.used pattern;
                                Node.next := Arena.NULL;
                                Node.name := take (Z.to_nat (size_add (Path.used pattern) 1))
                                                  (Path.buffer pattern) |}]> (heap m)).
  { rewrite Hh7, Hh6, Hh5, <- Em4. cbn [heap]. apply stores_to_file. }
  (* the tail *)
  destruct (chain_last_node _ _ _ Hch) as (t0 & nt & Hl & Hint & _).
  assert (Hnot : file ∉ ps).
  { intros Hf. destruct (chain_nodes _ _ _ _ Hch Hf) as [_ [n Hn]]. congruence. }
  assert (Hch7 : chain (heap m7) p0 ps).
  { rewrite Hh7'. apply chain_insert_fresh; assumption. }
  rewrite (find_tail_chain m7 p0 ps (snd st) t0 Hch7 Hin Hl) in H8.
  injection H8 as <- <-.
  (* the link *)
  assert (Em9 : m9 = linked_machine v host m pattern t0).
  { destruct m9 as [a9 h9]. cbn [arena heap] in Ha9, Hh9. unfold linked_machine.
    rewrite Efile, Hh9, Hh7', Ha9, Ha7, Ha6, Ha5, <- Em4. reflexivity. }
  pose proof (linked_grown root cFileName m pattern p0 ps t0 Ht Hu Hname Hch Hl) as Hg9.
  cbn zeta in Hg9. rewrite Efile, <- Em9 in Hg9. specialize (Hg9 Hfile).
  assert (Ht9 : tidy m9) by apply Hg9.
  assert (Hch9 : chain (heap m9) p0 (ps ++ [file])) by apply Hg9.
  split; [exact Hwsp |]. cbn [snd].
  destruct (is_directory attrs).
  - destruct (get_file_list_grows (Path.buffer pattern) contents IH t0 m9 u5 m10 p0
                (ps ++ [file]) Ht9 Hch9
                ltac:(apply elem_of_app; left; exact Hint) H10) as (qs & Hg).
    exists ([file] ++ qs). split; [apply elem_of_app; left; exact Hint |].
    rewrite (preorder_root _ (join root cFileName)) in Hg
      by (rewrite Hbuf; symmetry; apply c_bytes_id, join_no_NUL).
    exact (grown_trans _ _ _ _ _ _ _ _ _ Hg9 Hg).
  - apply ret_done in H10 as [_ <-].
    exists [file]. split; [apply elem_of_app; left; exact Hint | exact Hg9].
Qed.

(** ** When the walk returns *)

Lemma store_field_step upd p m :
  p <> Arena.NULL ->
  store_field upd p m
  = Done (tt, {| arena := arena m; heap := <[p := upd (node_at (heap m) p)]> (heap m) |}).
Proof. intros Hp. unfold store_field. destruct (Z.eqb_spec p Arena.NULL); [contradiction | reflexivity]. Qed.

Lemma strlen_lit_sep : strlen (lit "\") = 1 /\ strlen (lit "\*") = 2.
Proof. split; reflexivity. Qed.

(** The three appends of the loop body return when the path fits. *)
Lemma pattern_fits pb root cFileName :
  Path.well_sized pb ->
  strlen root + 1 + strlen cFileName < MAX_PATH ->
  exists pattern,
    Path.push_all (Path.reset_path pb) [root; lit "\"; cFileName] = Done pattern.
Proof.
  intros Hws Hfit.
  pose proof (strlen_nonneg root) as Hr. pose proof (strlen_nonneg cFileName) as Hn.
  destruct strlen_lit_sep as [Hsep _].
  destruct (push_path_fits (Path.reset_path pb) root Hws) as [p1 E1]; [cbn; lia | lia | cbn; lia |].
  destruct (push_path_done (Path.reset_path pb) _ _ Hws E1) as (_ & Hu1 & _ & Hws1 & _).
  cbn [Path.used Path.reset_path] in Hu1.
  destruct (push_path_fits p1 (lit "\") Hws1) as [p2 E2]; [lia | rewrite Hsep; unfold MAX_PATH; lia | lia |].
  destruct (push_path_done p1 _ _ Hws1 E2) as (_ & Hu2 & _ & Hws2 & _).
  destruct (push_path_fits p2 cFileName Hws2) as [p3 E3]; [lia | lia | lia |].
  exists p3. cbn [Path.push_all]. unfold mbind, outcome_bind. rewrite E1, E2, E3. reflexivity.
Qed.

(** The two appends that build the search pattern return when it fits. *)
Lemma prologue_fits root :
  strlen root + 2 < MAX_PATH ->
  exists p1 p2,
    Path.push_path Path.zeroed root = Done p1
    /\ Path.push_path p1 (lit "\*") = Done p2
    /\ Path.well_sized p2.
Proof.
  intros Hfit. pose proof (strlen_nonneg root) as Hr.
  destruct strlen_lit_sep as [_ Hsep].
  destruct (push_path_fits Path.zeroed root zeroed_well_sized) as [p1 E1];
    [cbn; lia | lia | cbn; lia |].
  destruct (push_path_done Path.zeroed _ _ zeroed_well_sized E1) as (_ & Hu1 & _ & Hws1 & _).
  cbn [Path.used Path.zeroed] in Hu1.
  destruct (push_path_fits p1 (lit "\*") Hws1) as [p2 E2];
    [lia | rewrite Hsep; unfold MAX_PATH; lia | lia |].
  destruct (push_path_done p1 _ _ Hws1 E2) as (_ & _ & _ & Hws2 & _).
  exists p1, p2. repeat split; assumption.
Qed.

(** With a host that grants every commit and room in the reservation the
    node is allocated at the frontier. *)
Lemma alloc_granted m u :
  tidy m -> 0 <= u < MAX_PATH ->
  (forall b n, host b n = true) ->
  Arena.used (arena m) + Arena.aligned_size v (sizeof_FileName + u)
  <= Arena.reserved (arena m) ->
  let ra := Arena.alloc v host (arena m)
              (size_add sizeof_FileName (size_mul u sizeof_char)) in
  Arena.ptr_of (fst ra) = Arena.base (arena m) + Arena.used (arena m)
  /\ Arena.used (snd ra)
     = Arena.used (arena m) + Arena.aligned_size v (sizeof_FileName + u)
  /\ Arena.base (snd ra) = Arena.base (arena m)
  /\ Arena.reserved (snd ra) = Arena.reserved (arena m).
Proof.
  intros (Hu0 & Hres & _) Hu Hhost Hroom ra.
  assert (Hsize : size_add sizeof_FileName (size_mul u sizeof_char) = sizeof_FileName + u).
  { unfold size_mul, sizeof_char, sizeof_FileName, MAX_PATH in *.
    rewrite Z.mul_1_r, wrap_small by (unfold is_size_t, SIZE_WIDTH; lia).
    apply size_add_small. lia. }
  unfold sizeof_FileName, MAX_PATH in *.
  assert (Hal : Arena.aligned_size v (24 + u) = round_up (24 + u) (granularity v)).
  { apply aligned_size_round_up; destruct v; cbn; lia. }
  pose proof (round_up_bounds (24 + u) (granularity v) ltac:(destruct v; cbn; lia)) as Hrb.
  subst ra. rewrite Hsize. unfold Arena.alloc. fold (Arena.aligned_size v (24 + u)).
  destruct (Z.geb_spec (Arena.used (arena m)) (Arena.reserved (arena m))); [lia |].
  assert (Hsum : size_add (Arena.used (arena m)) (Arena.aligned_size v (24 + u))
                 = Arena.used (arena m) + Arena.aligned_size v (24 + u))
    by (apply size_add_small; lia).
  rewrite Hsum.
  destruct (_ >? _); [rewrite Hhost |];
    cbn [fst snd Arena.ptr_of Arena.used Arena.base Arena.reserved Arena.committed
           Arena.set_used Arena.set_committed];
    rewrite Hsum; repeat split.
Qed.

(** The body of the loop up to the link, run forward. *)
Lemma loop_body_linked root attrs cFileName contents st m pattern p0 ps t :
  is_pseudo cFileName = false ->
  Path.push_all (Path.reset_path (fst st)) [root; lit "\"; cFileName] = Done pattern ->
  Arena.ptr_of (fst (Arena.alloc v host (arena m)
                       (size_add sizeof_FileName
                                 (size_mul (Path.used pattern) sizeof_char))))
  <> Arena.NULL ->
  heap m !! Arena.ptr_of (fst (Arena.alloc v host (arena m)
                       (size_add sizeof_FileName
                                 (size_mul (Path.used pattern) sizeof_char)))) = None ->
  chain (heap m) p0 ps -> snd st ∈ ps -> last ps = Some t ->
  loop_body v host root (Dirent attrs cFileName contents) st m
  = ((if is_directory attrs
      then get_file_list_custom v host (Path.buffer pattern) contents t
      else mret tt);;
     mret (pattern, t)) (linked_machine v host m pattern t).
Proof.
  intros Hpseudo Hpush Hfile Hfresh Hch Hin Hl.
  destruct (push_all_three _ _ _ _ _ Hpush) as (p1 & p2 & E1 & E2 & E3).
  rewrite loop_body_eq, Hpseudo.
  rewrite (bind_step _ _ m p1 m) by (rewrite E1; reflexivity).
  rewrite (bind_step _ _ m p2 m) by (rewrite E2; reflexivity).
  rewrite (bind_step _ _ m pattern m) by (rewrite E3; reflexivity).
  erewrite bind_step by apply call_alloc_done.
  set (file := Arena.ptr_of _) in *.
  erewrite bind_step by (apply store_field_step; exact Hfile).
  erewrite bind_step by (apply store_field_step; exact Hfile).
  erewrite bind_step by (apply store_field_step; exact Hfile).
  cbn [arena heap]. rewrite stores_to_file.
  assert (Hnot : file ∉ ps).
  { intros Hf. destruct (chain_nodes _ _ _ _ Hch Hf) as [_ [n Hn]]. congruence. }
  erewrite bind_step; cycle 1.
  { eapply find_tail_chain; [| exact Hin | exact Hl].
    cbn [heap]. apply chain_insert_fresh; [exact Hch | exact Hnot]. }
  destruct (chain_last_node _ _ _ Hch) as (t' & nt & Hl' & Hint & _).
  assert (t' = t) as -> by congruence.
  erewrite bind_step; cycle 1.
  { apply store_field_step. eapply chain_nodes; [exact Hch | exact Hint]. }
  reflexivity.
Qed.

Lemma join_length root cFileName :
  Z.of_nat (length (join root cFileName)) = strlen root + 1 + strlen cFileName.
Proof. unfold join, strlen. rewrite !length_app. cbn. lia. Qed.

Lemma strlen_join root cFileName :
  strlen (join root cFileName) = strlen root + 1 + strlen cFileName.
Proof.
  unfold strlen at 1. rewrite c_bytes_id by apply join_no_NUL. apply join_length.
Qed.

Lemma demand_root root root' e :
  c_bytes root = c_bytes root' -> demand v root e = demand v root' e.
Proof.
  intros E. destruct e as [attrs cFileName contents]. cbn. unfold join. rewrite E. reflexivity.
Qed.

Lemma demand_all_root root root' entries :
  c_bytes root = c_bytes root' -> demand_all v root entries = demand_all v root' entries.
Proof.
  intros E. unfold demand_all. induction entries as [| e entries IH]; cbn; [reflexivity |].
  rewrite IH, (demand_root root root' e E). reflexivity.
Qed.

Lemma walkable_root root root' e :
  c_bytes root = c_bytes root' -> walkable root e = walkable root' e.
Proof.
  intros E. destruct e as [attrs cFileName contents]. cbn. unfold join, strlen.
  rewrite E. reflexivity.
Qed.

Lemma walkable_all_root root root' entries :
  c_bytes root = c_bytes root' -> walkable_all root entries = walkable_all root' entries.
Proof.
  intros E. unfold walkable_all, strlen. rewrite E. f_equal.
  induction entries as [| e entries IH]; cbn; [reflexivity |].
  rewrite IH, (walkable_root root root' e E). reflexivity.
Qed.

Lemma demand_nonneg e : forall root, 0 <= demand v root e.
Proof.
  induction e as [attrs cFileName contents IH] using dirent_ind. intros root.
  cbn [demand]. destruct (is_pseudo cFileName); [lia |].
  pose proof (aligned_size_range v (sizeof_FileName + Z.of_nat (length (join root cFileName))))
    as [Hn _]. fold (node_bytes v (join root cFileName)) in Hn.
  destruct (is_directory attrs); [| lia].
  assert (0 <= fold_right (fun e' acc => demand v (join root cFileName) e' + acc) 0 contents).
  { induction IH as [| e contents He _ IHc]; cbn; [lia |].
    specialize (He (join root cFileName)). lia. }
  lia.
Qed.

Lemma demand_all_nonneg root entries : 0 <= demand_all v root entries.
Proof.
  unfold demand_all. induction entries as [| e entries IH]; cbn; [lia |].
  pose proof (demand_nonneg e root). lia.
Qed.

(** The loop returns when each of its iterations does. *)
Lemma do_while_returns root entries :
  Forall (iteration_returns v host) entries ->
  forall st m p0 ps,
    Path.well_sized (fst st) -> tidy m ->
    chain (heap m) p0 ps -> snd st ∈ ps ->
    forallb (walkable root) entries = true ->
    (forall b n, host b n = true) ->
    0 < Arena.base (arena m) ->
    Arena.used (arena m) + demand_all v root entries <= Arena.reserved (arena m) ->
    exists st' m',
      do_while (loop_body v host root) entries st m = Done (st', m')
      /\ Arena.used (arena m') = Arena.used (arena m) + demand_all v root entries
      /\ Arena.base (arena m') = Arena.base (arena m)
      /\ Arena.reserved (arena m') = Arena.reserved (arena m).
Proof.
  induction 1 as [| e entries He _ IH];
    intros st m p0 ps Hws Ht Hch Hin Hwalk Hhost Hbase Hroom.
  - exists st, m. cbn. repeat split. lia.
  - cbn [forallb] in Hwalk. apply andb_prop in Hwalk as [Hwe Hwr].
    change (demand_all v root (e :: entries))
      with (demand v root e + demand_all v root entries) in *.
    pose proof (demand_all_nonneg root entries) as Hd.
    destruct (He root st m p0 ps Hws Ht Hch Hin Hwe Hhost Hbase ltac:(lia))
      as (st1 & m1 & Hrun1 & Hu1 & Hb1 & Hr1).
    destruct (loop_body_grows e root st m st1 m1 p0 ps Hws Ht Hch Hin Hrun1)
      as (Hws1 & qs & Hin1 & Hg1).
    destruct (IH st1 m1 p0 (ps ++ qs) Hws1 ltac:(apply Hg1) ltac:(apply Hg1) Hin1 Hwr
                Hhost ltac:(lia) ltac:(lia))
      as (st' & m' & Hrun & Hu & Hb & Hr).
    exists st', m'. cbn [do_while]. rewrite (bind_step _ _ _ _ _ Hrun1).
    split; [exact Hrun |]. repeat split; lia.
Qed.

(** The call returns when each iteration of its loop does. *)
Lemma get_file_list_returns root entries :
  Forall (iteration_returns v host) entries ->
  forall strings m p0 ps,
    tidy m -> chain (heap m) p0 ps -> strings ∈ ps ->
    walkable_all root entries = true ->
    (forall b n, host b n = true) ->
    0 < Arena.base (arena m) ->
    Arena.used (arena m) + demand_all v root entries <= Arena.reserved (arena m) ->
    exists m',
      get_file_list_custom v host root entries strings m = Done (tt, m')
      /\ Arena.used (arena m') = Arena.used (arena m) + demand_all v root entries
      /\ Arena.base (arena m') = Arena.base (arena m)
      /\ Arena.reserved (arena m') = Arena.reserved (arena m).
Proof.
  intros Hall strings m p0 ps Ht Hch Hin Hwalk Hhost Hbase Hroom.
  unfold walkable_all in Hwalk.
  apply andb_prop in Hwalk as [Hwalk Hw3]. apply andb_prop in Hwalk as [Hw1 Hw2].
  apply Z.ltb_lt in Hw1.
  destruct (prologue_fits root Hw1) as (p1 & p2 & E1 & E2 & Hws2).
  destruct (do_while_returns root entries Hall (p2, strings) m p0 ps
              Hws2 Ht Hch Hin Hw3 Hhost Hbase Hroom)
    as (st' & m' & Hrun & Hfacts).
  exists m'. split; [| exact Hfacts].
  unfold get_file_list_custom, get_file_list_with.
  rewrite (bind_step _ _ m p1 m) by (rewrite E1; reflexivity).
  rewrite (bind_step _ _ m p2 m) by (rewrite E2; reflexivity).
  destruct entries as [| e entries]; [discriminate Hw2 |].
  rewrite (bind_step _ _ _ _ _ Hrun). reflexivity.
Qed.

(** An iteration returns, for every entry. *)
Lemma loop_body_returns e : iteration_returns v host e.
Proof.
  induction e as [attrs cFileName contents IH] using dirent_ind.
  intros root st m p0 ps Hws Ht Hch Hin Hwalk Hhost Hbase Hroom.
  cbn [walkable demand] in Hwalk, Hroom |- *.
  destruct (is_pseudo cFileName) eqn:Hpseudo.
  { exists st, m. rewrite loop_body_eq, Hpseudo. repeat split. lia. }
  cbn [orb] in Hwalk. apply andb_prop in Hwalk as [Hfit Hdir]. apply Z.ltb_lt in Hfit.
  destruct (pattern_fits (fst st) root cFileName Hws Hfit) as [pattern Hpush].
  destruct (pattern_built _ _ _ _ Hws Hpush) as (Hwsp & Hu & Hlen & Hbuf & Hname).
  pose proof (demand_all_nonneg (join root cFileName) contents) as Hd.
  unfold demand_all in Hd. unfold node_bytes in Hroom |- *. rewrite <- Hlen in Hroom |- *.
  assert (Hroom1 : Arena.used (arena m)
                   + Arena.aligned_size v (sizeof_FileName + Path.used pattern)
                   <= Arena.reserved (arena m)).
  { destruct (is_directory attrs); lia. }
  destruct (alloc_granted m (Path.used pattern) Ht Hu Hhost Hroom1)
    as (Hptr & Hused & Hb & Hr).
  assert (Hfile : Arena.ptr_of (fst (Arena.alloc v host (arena m)
                    (size_add sizeof_FileName (size_mul (Path.used pattern) sizeof_char))))
                  <> Arena.NULL).
  { rewrite Hptr. destruct Ht as (Hu0 & _). unfold Arena.NULL. lia. }
  destruct (alloc_node m (Path.used pattern) Ht Hu Hfile) as [Hfresh _].
  destruct (chain_last_node _ _ _ Hch) as (t & nt & Hl & Hint & _).
  rewrite (loop_body_linked root attrs cFileName contents st m pattern p0 ps t
             Hpseudo Hpush Hfile Hfresh Hch Hin Hl).
  pose proof (linked_grown root cFileName m pattern p0 ps t Ht Hu Hname Hch Hl Hfile) as Hg.
  set (m9 := linked_machine v host m pattern t) in *.
  assert (Ha9 : arena m9 = snd (Arena.alloc v host (arena m)
                   (size_add sizeof_FileName (size_mul (Path.used pattern) sizeof_char))))
    by reflexivity.
  destruct (is_directory attrs) eqn:Hisdir.
  - cbn [negb orb] in Hdir.
    apply andb_prop in Hdir as [Hdir Hw3]. apply andb_prop in Hdir as [Hw1 Hw2].
    assert (Hroot : c_bytes (Path.buffer pattern) = c_bytes (join root cFileName)).
    { rewrite Hbuf. symmetry. apply c_bytes_id, join_no_NUL. }
    assert (Hwalk' : walkable_all (Path.buffer pattern) contents = true).
    { rewrite (walkable_all_root _ _ _ Hroot). unfold walkable_all.
      rewrite strlen_join, Hw1, Hw2, Hw3. reflexivity. }
    destruct (get_file_list_returns (Path.buffer pattern) contents IH t m9 p0
                (ps ++ [_]) ltac:(apply Hg) ltac:(apply Hg)
                ltac:(apply elem_of_app; left; exact Hint) Hwalk' Hhost
                ltac:(rewrite Ha9, Hb; exact Hbase)
                ltac:(rewrite (demand_all_root _ _ _ Hroot), Ha9, Hused, Hr;
                      unfold demand_all; lia))
      as (m' & Hrun & Hu' & Hb' & Hr').
    exists (pattern, t), m'.
    rewrite (bind_step _ _ _ _ _ Hrun). split; [reflexivity |].
    rewrite Hu', Hb', Hr', (demand_all_root _ _ _ Hroot), Ha9, Hused, Hb, Hr.
    unfold demand_all. repeat split. lia.
  - exists (pattern, t), m9. split; [reflexivity |].
    rewrite Ha9, Hused, Hb, Hr. repeat split. lia.
Qed.

(** The list a walk leaves, from the [strings] it was given. *)
Lemma walk_lists_preorder root entries strings m u m' l :
  tidy m -> listed (heap m) strings l ->
  get_file_list_custom v host root entries strings m = Done (u, m') ->
  listed (heap m') strings (l ++ preorder root entries).
Proof.
  intros Ht (ps & Hch & Hl) H.
  assert (Hin : strings ∈ ps).
  { destruct (chain_head _ _ _ Hch) as [ps' ->]. apply list_elem_of_here. }
  assert (Hall : Forall (iteration_grows v host) entries).
  { apply Forall_forall. intros e _. apply loop_body_grows. }
  destruct (get_file_list_grows root entries Hall strings m u m' strings ps Ht Hch Hin H)
    as (qs & Hch' & Hpaths & Hkeep & _).
  exists (ps ++ qs). split; [exact Hch' |].
  rewrite map_app, Hpaths. f_equal. rewrite <- Hl.
  apply map_ext_in. intros q Hq. apply Hkeep, list_elem_of_In, Hq.
Qed.

(** When the walk returns, and with which list. *)
Lemma walk_returns root entries strings m l :
  tidy m -> listed (heap m) strings l ->
  walkable_all root entries = true ->
  (forall b n, host b n = true) ->
  0 < Arena.base (arena m) ->
  Arena.used (arena m) + demand_all v root entries <= Arena.reserved (arena m) ->
  exists m',
    get_file_list_custom v host root entries strings m = Done (tt, m')
    /\ listed (heap m') strings (l ++ preorder root entries).
Proof.
  intros Ht Hlisted Hwalk Hhost Hbase Hroom.
  pose proof Hlisted as (ps & Hch & _).
  assert (Hin : strings ∈ ps).
  { destruct (chain_head _ _ _ Hch) as [ps' ->]. apply list_elem_of_here. }
  assert (Hall : Forall (iteration_returns v host) entries).
  { apply Forall_forall. intros e _. apply loop_body_returns. }
  destruct (get_file_list_returns root entries Hall strings m strings ps
              Ht Hch Hin Hwalk Hhost Hbase Hroom) as (m' & Hrun & _).
  exists m'. split; [exact Hrun |].
  exact (walk_lists_preorder root entries strings m tt m' l Ht Hlisted Hrun).
Qed.

End WalkFacts.

Lemma main_machine_tidy region : 0 < region -> tidy (main_machine region).
Proof.
  intros Hr. unfold tidy, main_machine. cbn [arena heap Arena.used Arena.reserved Arena.base].
  split; [lia |]. split; [lia |].
  intros p n Hp. apply lookup_singleton_Some in Hp as [<- <-].
  unfold node_end, sizeof_FileName, offsetof_name. cbn. lia.
Qed.

Lemma main_machine_listed region :
  region <> 0 -> listed (heap (main_machine region)) region [lit "."].
Proof.
  intros Hr. exists [region]. split.
  - eapply chain_last; [exact Hr | apply lookup_singleton_eq | reflexivity].
  - cbn [map]. unfold path_at, node_at, main_machine. cbn [heap].
    rewrite lookup_singleton_eq. reflexivity.
Qed.

(** C8.  Whatever entries the host yields and in whatever order: a walk
    that returns, started in a tidy machine on a list that holds the
    paths [l], leaves the list holding [l] followed by the paths of the
    entries in pre-order (an entry, then all that lies below it, then
    its next sibling; [.] and [..] left out); each node is linked behind
    the last node of the list and a directory is walked before its next
    sibling is looked at.  The walk does return when every path and
    pattern fits the buffer, every directory yields an entry, the host
    grants every commit and the reservation has room for the nodes.  In
    particular the run of [main] on a directory whose entries are
    yielded as [a], a file, then [b], a directory holding the file [c],
    returns and leaves the list [.], [.\a], [.\b], [.\b\c]. *)
Theorem C8_list_is_preorder :
  (forall v host root entries strings m u m' l,
      tidy m -> listed (heap m) strings l ->
      get_file_list_custom v host root entries strings m = Done (u, m') ->
      listed (heap m') strings (l ++ preorder root entries))
  /\ (forall v host root entries strings m l,
         tidy m -> listed (heap m) strings l ->
         walkable_all root entries = true ->
         (forall b n, host b n = true) ->
         0 < Arena.base (arena m) ->
         Arena.used (arena m) + demand_all v root entries <= Arena.reserved (arena m) ->
         exists m',
           get_file_list_custom v host root entries strings m = Done (tt, m')
           /\ listed (heap m') strings (l ++ preorder root entries))
  /\ (forall v, exists first m',
         main_custom v host_grants 65536 example_entries = Done (first, m')
         /\ listed (heap m') first [lit "."; lit ".\a"; lit ".\b"; lit ".\b\c"]).
Proof.
  split; [exact walk_lists_preorder |]. split; [exact walk_returns |].
  intros v.
  destruct (walk_returns v host_grants (lit ".") example_entries 65536
              (main_machine 65536) [lit "."]
              (main_machine_tidy 65536 ltac:(lia))
              (main_machine_listed 65536 ltac:(lia)))
    as (m' & Hrun & Hlist);
    [reflexivity | reflexivity | cbn; lia | destruct v; vm_compute; discriminate |].
  exists 65536, m'. split; [| exact Hlist].
  transitivity (match get_file_list_custom v host_grants (lit ".") example_entries 65536
                       (main_machine 65536) with
                | Done (_, m1) => Done (65536, m1)
                | Stop e => Stop e
                end); [destruct v; reflexivity | rewrite Hrun; reflexivity].
Qed.

Lemma C8_list_is_preorder_witness :
  tidy (main_machine 65536)
  /\ listed (heap (main_machine 65536)) 65536 [lit "."]
  /\ exists m',
      get_file_list_custom main_cpp host_grants (lit ".") example_entries 65536
                           (main_machine 65536) = Done (tt, m')
      /\ listed (heap m') 65536 [lit "."; lit ".\a"; lit ".\b"; lit ".\b\c"].
Proof.
  split; [apply main_machine_tidy; lia |].
  split; [apply main_machine_listed; lia |].
  apply (proj1 (proj2 C8_list_is_preorder) main_cpp host_grants (lit ".") example_entries
           65536 (main_machine 65536) [lit "."]).
  - apply main_machine_tidy. lia.
  - apply main_machine_listed. lia.
  - reflexivity.
  - reflexivity.
  - cbn. lia.
  - vm_compute. discriminate.
Defined.

Lemma C10_null_result_is_written_witness :
  let full := {| Arena.base := 65536; Arena.used := 4096;
                 Arena.committed := 4096; Arena.reserved := 4096 |} in
  let m := {| arena := full; heap := ∅ |} in
  Arena.alloc main_cpp host_grants full 27 = (Arena.OutOfReservedSpace, full)
  /\ loop_body main_cpp host_grants (lit ".") (Dirent 32 (lit "a") [])
               (Path.zeroed, 65536) m
     = Stop NullWrite.
Proof.
  intros full m. split; [reflexivity |].
  eapply (C10_null_result_is_written main_cpp host_grants (lit ".") 32 (lit "a") []
            (Path.zeroed, 65536) m).
  - reflexivity.
  - vm_compute. reflexivity.
  - reflexivity.
Defined.

(** * More facts about the arena *)

Section MoreArenaFacts.

Import Arena.

(** X1.  A call of [alloc] that returns no block, for exhaustion or for
    a refused commit, returns the null pointer and leaves the arena as
    it was: no counter is written on either failure path. *)
Theorem X1_failed_alloc_changes_nothing v h a n :
  is_block (fst (alloc v h a n)) = false ->
  ptr_of (fst (alloc v h a n)) = NULL /\ snd (alloc v h a n) = a.
Proof.
  unfold alloc.
  destruct (_ >=? _); [intros _; split; reflexivity |].
  destruct (_ >? _); [destruct (h _ _) |]; cbn; intros H;
    try discriminate H; split; reflexivity.
Qed.

Lemma X1_failed_alloc_changes_nothing_witness :
  let a := {| base := 65536; used := 32; committed := 64; reserved := 409600 |} in
  is_block (fst (alloc main_cc host_refuses a 100)) = false
  /\ ptr_of (fst (alloc main_cc host_refuses a 100)) = NULL
  /\ snd (alloc main_cc host_refuses a 100) = a.
Proof.
  intros a. split; [reflexivity |].
  apply (X1_failed_alloc_changes_nothing main_cc host_refuses a 100). reflexivity.
Defined.

(** X2.  Over any sequence of calls, whatever they return, [base] and
    [reserved] stay what they were, and [committed] stays at or below
    [reserved] once it is. *)
Theorem X2_run_keeps_reservation v : forall calls a,
  Forall (fun s => base (after s) = base a
                   /\ reserved (after s) = reserved a
                   /\ (committed a <= reserved a ->
                       committed (after s) <= reserved a))
         (run v a calls).
Proof.
  induction calls as [| c calls IH]; intros a; cbn [run]; constructor.
  - cbn. destruct (alloc_base_reserved v (host c) a (size c)) as [Hb Hr].
    split; [exact Hb |]. split; [exact Hr |].
    intros Hc. unfold alloc.
    destruct (_ >=? _); [exact Hc |].
    destruct (_ >? _); [destruct (host c _ _) |]; cbn; try exact Hc.
    rewrite CLAMP_TOP_min. lia.
  - destruct (alloc_base_reserved v (host c) a (size c)) as [Hb Hr].
    eapply Forall_impl; [apply IH |]. cbn.
    intros s (H1 & H2 & H3). rewrite Hb in H1. rewrite Hr in H2, H3.
    split; [exact H1 |]. split; [exact H2 |].
    intros Hc. apply H3.
    unfold alloc.
    destruct (_ >=? _); [exact Hc |].
    destruct (_ >? _); [destruct (host c _ _) |]; cbn; try exact Hc.
    rewrite CLAMP_TOP_min. lia.
Qed.

(** X3.  A request that fits what is committed is served without the
    host: whatever the host would answer, the call returns [base + used],
    advances [used] by the aligned size and leaves [committed] as it
    was. *)
Theorem X3_alloc_within_committed v h a n :
  well_typed a ->
  used a < reserved a ->
  used a + aligned_size v n <= committed a ->
  alloc v h a n
  = (Block (base a + used a), set_used (used a + aligned_size v n) a).
Proof.
  intros (Hu & Hc & Hr) Hlt Hfit.
  pose proof (aligned_size_range v n) as Hal.
  unfold is_size_t, SIZE_WIDTH in *.
  assert (Hsum : size_add (used a) (aligned_size v n) = used a + aligned_size v n)
    by (apply size_add_small; lia).
  unfold alloc. fold (aligned_size v n).
  destruct (Z.geb_spec (used a) (reserved a)); [lia |].
  rewrite Hsum.
  destruct (Z.gtb_spec (used a + aligned_size v n) (committed a)); [lia |].
  cbn zeta. rewrite Hsum. reflexivity.
Qed.

Lemma X3_alloc_within_committed_witness :
  let a := {| base := 65536; used := 32; committed := 409600;
              reserved := 1024 * 1024 * 1024 |} in
  alloc main_cpp host_refuses a 30
  = (Block (65536 + 32), set_used (32 + 32) a).
Proof.
  intros a.
  apply (X3_alloc_within_committed main_cpp host_refuses a 30).
  - vm_compute. intuition discriminate.
  - cbn. lia.
  - vm_compute. discriminate.
Defined.

(** X4.  When the request fits the rest of the reservation and the
    commit size does not overflow, the bytes of a returned block, and so
    the [n] bytes asked for, lie in committed memory:
    [base <= mem] and [mem + n <= mem + aligned_size <= base + committed]. *)
Theorem X4_block_is_committed v h a n :
  well_typed a ->
  used a <= committed a <= reserved a ->
  0 <= n -> n + granularity v - 1 < 2 ^ 64 ->
  used a + aligned_size v n <= reserved a ->
  committed a + Z.max (round_up (aligned_size v n) PAGE_SIZE) COMMIT_CHUNK < 2 ^ 64 ->
  is_block (fst (alloc v h a n)) = true ->
  let mem := ptr_of (fst (alloc v h a n)) in
  base a <= mem
  /\ mem + n <= mem + aligned_size v n
  /\ mem + aligned_size v n <= base a + committed (snd (alloc v h a n))
  /\ committed (snd (alloc v h a n)) <= reserved a.
Proof.
  intros Hwt Hinv Hn Hov Hfit Hcs Hb mem.
  destruct (alloc_keeps_invariant v h a n Hwt Hinv Hfit Hcs) as [H1 H2].
  destruct (alloc_block _ _ _ _ Hb) as (_ & Hr & Hu & _ & Hres).
  pose proof (aligned_size_round_up v n Hn Hov) as Hal.
  pose proof (round_up_bounds n (granularity v) ltac:(destruct v; cbn; lia)) as Hrb.
  destruct Hwt as ([Hu0 _] & _ & [_ Hr64]). unfold SIZE_WIDTH in Hr64.
  rewrite size_add_small in Hu by (rewrite Hal in *; lia).
  subst mem. rewrite Hr. cbn [ptr_of]. rewrite Hres in H2.
  repeat split; lia.
Qed.

Lemma X4_block_is_committed_witness :
  let a := make 65536 (1024 * 1024 * 1024) in
  let r := alloc main_cc host_grants a 500000 in
  ptr_of (fst r) = 65536
  /\ 65536 + 500000 <= 65536 + committed (snd r)
  /\ committed (snd r) <= 1024 * 1024 * 1024.
Proof.
  intros a r.
  destruct (X4_block_is_committed main_cc host_grants a 500000)
    as (_ & H1 & H2 & H3);
    [vm_compute; intuition discriminate | cbn; lia | lia | cbn; lia
    | vm_compute; discriminate | vm_compute; reflexivity | reflexivity |].
  fold r in H1, H2, H3.
  change (ptr_of (fst r)) with 65536 in *. cbn [base reserved make a] in *.
  split; [reflexivity | split; lia].
Defined.

(** X5.  Without overflow of the commit size, a call never lowers
    [committed]: it stays, or grows to the clamped commit size. *)
Theorem X5_committed_never_shrinks v h a n :
  well_typed a ->
  committed a <= reserved a ->
  committed a + Z.max (round_up (aligned_size v n) PAGE_SIZE) COMMIT_CHUNK < 2 ^ 64 ->
  committed a <= committed (snd (alloc v h a n)).
Proof.
  intros (Hu & Hc & Hr) Hinv Hov.
  pose proof (aligned_size_range v n) as Hal.
  pose proof (round_up_bounds (aligned_size v n) PAGE_SIZE ltac:(unfold PAGE_SIZE; lia)) as Hrb.
  destruct (round_up_divide (aligned_size v n) PAGE_SIZE) as [q Hq].
  unfold is_size_t, SIZE_WIDTH, PAGE_SIZE, COMMIT_CHUNK in *.
  assert (Hpage : NEXT_MULTIPLE (aligned_size v n) 4096 = round_up (aligned_size v n) 4096).
  { apply (NEXT_MULTIPLE_round_up _ 12); lia. }
  unfold alloc. fold (aligned_size v n).
  destruct (_ >=? _); [cbn; lia |].
  destruct (_ >? _); [| cbn; lia].
  rewrite CLAMP_TOP_min, MAX_max, Hpage, size_add_small by lia.
  destruct (h _ _); cbn; lia.
Qed.

Lemma X5_committed_never_shrinks_witness :
  let a := {| base := 65536; used := 409600; committed := 409600;
              reserved := 1024 * 1024 * 1024 |} in
  committed a <= committed (snd (alloc main_cpp host_grants a 25)).
Proof.
  intros a. apply (X5_committed_never_shrinks main_cpp host_grants a 25).
  - vm_compute. intuition discriminate.
  - cbn. lia.
  - vm_compute. reflexivity.
Defined.

(** X6.  For a power of two below [2^64] and without overflow of the sum
    in the macro, [NEXT_MULTIPLE(num, base)] is the least multiple of
    [base] at or above [num]; on a multiple of [base] it is the
    identity. *)
Theorem X6_NEXT_MULTIPLE_least n k :
  0 <= k < 64 -> 0 <= n -> n + 2 ^ k - 1 < 2 ^ 64 ->
  (2 ^ k | NEXT_MULTIPLE n (2 ^ k))
  /\ n <= NEXT_MULTIPLE n (2 ^ k)
  /\ (forall m, (2 ^ k | m) -> n <= m -> NEXT_MULTIPLE n (2 ^ k) <= m)
  /\ ((2 ^ k | n) -> NEXT_MULTIPLE n (2 ^ k) = n).
Proof.
  intros Hk Hn Hov.
  assert (Hp : 0 < 2 ^ k) by (apply Z.pow_pos_nonneg; lia).
  rewrite (NEXT_MULTIPLE_round_up n k Hk Hn Hov).
  pose proof (round_up_bounds n (2 ^ k) Hp) as Hrb.
  destruct (round_up_divide n (2 ^ k)) as [q Hq].
  assert (Hleast : forall m, (2 ^ k | m) -> n <= m -> round_up n (2 ^ k) <= m).
  { intros m [j ->] Hle. rewrite Hq in *.
    assert (Hqj : q < j + 1) by (apply (Z.mul_lt_mono_pos_r (2 ^ k)); lia).
    apply Z.mul_le_mono_nonneg_r; lia. }
  split; [apply round_up_divide |]. split; [lia |]. split; [exact Hleast |].
  intros Hdiv. specialize (Hleast n Hdiv ltac:(lia)). lia.
Qed.

Lemma X6_NEXT_MULTIPLE_least_witness :
  (2 ^ 4 | NEXT_MULTIPLE 25 (2 ^ 4))
  /\ 25 <= NEXT_MULTIPLE 25 (2 ^ 4)
  /\ (forall m, (2 ^ 4 | m) -> 25 <= m -> NEXT_MULTIPLE 25 (2 ^ 4) <= m).
Proof.
  destruct (X6_NEXT_MULTIPLE_least 25 4 ltac:(lia) ltac:(lia) ltac:(lia))
    as (H1 & H2 & H3 & _).
  split; [exact H1 | split; [exact H2 | exact H3]].
Defined.

(** X7.  A sequence of calls that all return a block, none of them with
    wrap-around, advances [used] by the sum of the aligned sizes of the
    requests, whatever the order of commits. *)
Theorem X7_run_consumes_total v : forall calls a,
  0 <= used a ->
  all_succeeded (run v a calls) -> no_wrap v (run v a calls) ->
  used (arena_after v a calls) = used a + aligned_total v calls.
Proof.
  induction calls as [| c calls IH]; intros a Ha Hok Hnw.
  - cbn. lia.
  - pose proof (run_steps v (c :: calls) a Ha Hok Hnw) as Hall.
    cbn [run] in Hok, Hnw, Hall.
    inversion Hall as [| s0 tr (_ & Hu0 & _) _]; subst. cbn in Hu0.
    inversion Hok as [| s0 tr _ Hok']; subst.
    inversion Hnw as [| s1 tr1 _ Hnw']; subst.
    pose proof (aligned_size_range v (size c)) as [Hal _].
    unfold arena_after in *. cbn [fold_left aligned_total fold_right].
    rewrite IH by (try assumption; lia).
    rewrite Hu0. unfold aligned_total. lia.
Qed.

Lemma X7_run_consumes_total_witness :
  used (arena_after main_cpp (make 65536 (1024 * 1024 * 1024))
                    [granted 25; granted 28; granted 300])
  = 0 + (32 + 32 + 304).
Proof.
  apply (X7_run_consumes_total main_cpp [granted 25; granted 28; granted 300]
           (make 65536 (1024 * 1024 * 1024))).
  - cbn. lia.
  - repeat constructor.
  - repeat constructor.
Defined.

End MoreArenaFacts.

(** * More facts about the path builder *)

Section MorePathFacts.

Import Path.

(** X8.  What a call of [push_path] does is decided by two lengths, that
    of the string and that of the text already built: a string of 259
    bytes or more stops the program, whatever the builder holds; a
    shorter one that does not fit behind the text is copied past the
    buffer; a shorter one that fits is appended. *)
Theorem X8_push_path_outcome pb s :
  well_sized pb -> 0 <= used pb -> strlen s + 1 < 2 ^ 64 ->
  (MAX_PATH <= strlen s + 1 -> push_path pb s = Stop PathTooLong)
  /\ (strlen s + 1 < MAX_PATH -> MAX_PATH <= used pb + strlen s ->
      push_path pb s = Stop BufferOverrun)
  /\ (strlen s + 1 < MAX_PATH -> used pb + strlen s < MAX_PATH ->
      exists pb', push_path pb s = Done pb'
                  /\ used pb' = used pb + strlen s).
Proof.
  intros Hws Hu Hs. split; [| split].
  - intros H. apply push_path_refuses; assumption.
  - intros H1 H2. apply push_path_overruns; assumption.
  - intros H1 H2. destruct (push_path_fits pb s Hws Hu H1 H2) as [pb' E].
    exists pb'. split; [exact E |].
    destruct (push_path_done pb s pb' Hws E) as (_ & H & _). exact H.
Qed.

Lemma X8_push_path_outcome_witness :
  push_path zeroed (repeat "a"%char 259) = Stop PathTooLong
  /\ exists pb', push_path zeroed (repeat "a"%char 258) = Done pb' /\ used pb' = 0 + 258.
Proof.
  destruct (X8_push_path_outcome zeroed (repeat "a"%char 259) zeroed_well_sized
              ltac:(cbn; lia) ltac:(vm_compute; reflexivity)) as (H1 & _ & _).
  destruct (X8_push_path_outcome zeroed (repeat "a"%char 258) zeroed_well_sized
              ltac:(cbn; lia) ltac:(vm_compute; reflexivity)) as (_ & _ & H3).
  split.
  - apply H1. vm_compute. discriminate.
  - destruct H3 as (pb' & E & Hu); [vm_compute; reflexivity | vm_compute; reflexivity |].
    exists pb'. split; [exact E | exact Hu].
Defined.

(** X9.  An append that returns writes the bytes [used .. used + n] of
    the buffer and no other: the text before [used] and the bytes after
    the new terminator are what they were, and the buffer keeps its
    size. *)
Theorem X9_push_path_frame pb s pb' :
  well_sized pb -> push_path pb s = Done pb' ->
  take (Z.to_nat (used pb)) (buffer pb') = take (Z.to_nat (used pb)) (buffer pb)
  /\ drop (S (Z.to_nat (used pb'))) (buffer pb')
     = drop (S (Z.to_nat (used pb'))) (buffer pb)
  /\ length (buffer pb') = length (buffer pb).
Proof.
  intros Hws E.
  destruct (push_path_done pb s pb' Hws E) as (Hu0 & Hu & Hlt & Hws' & Ht & _).
  pose proof (strlen_nonneg s) as Hs.
  assert (Hlen : length (buffer pb') = length (buffer pb)).
  { unfold well_sized in *. lia. }
  split; [| split; [| exact Hlen]].
  - replace (Z.to_nat (used pb)) with (Nat.min (Z.to_nat (used pb)) (Z.to_nat (used pb')))
      at 1 by lia.
    rewrite <- take_take, Ht. apply take_app_length'.
    rewrite length_take. unfold well_sized, MAX_PATH in *. lia.
  - revert E. unfold push_path.
    destruct (_ >=? _); [discriminate |].
    unfold memcpy.
    destruct (Z.leb_spec 0 (used pb)); [| discriminate].
    destruct (Z.leb_spec (used pb + strlen s) (Z.of_nat (length (buffer pb))));
      [| discriminate].
    cbn [andb]. rewrite size_add_small by (unfold MAX_PATH in *; lia).
    unfold store.
    destruct (_ && _); [| discriminate].
    intros [= <-]. cbn [buffer used] in *.
    pose proof (c_bytes_length s) as Hcl.
    rewrite drop_insert_lt by lia.
    rewrite app_assoc, drop_app_ge; rewrite length_app, !length_take;
      [| unfold strlen in *; lia].
    rewrite drop_drop. f_equal. unfold strlen in *. lia.
Qed.

Lemma X9_push_path_frame_witness :
  exists pb', push_path zeroed (lit "ab") = Done pb'
              /\ drop (S (Z.to_nat (used pb'))) (buffer pb')
                 = drop (S (Z.to_nat (used pb'))) (buffer zeroed).
Proof.
  destruct (push_path_fits zeroed (lit "ab") zeroed_well_sized) as [pb' E];
    [cbn; lia | vm_compute; reflexivity | vm_compute; reflexivity |].
  exists pb'. split; [exact E |].
  apply (X9_push_path_frame zeroed (lit "ab") pb' zeroed_well_sized E).
Defined.

Lemma concat_c_bytes_no_NUL strs : NUL ∉ concat (map c_bytes strs).
Proof.
  induction strs as [| s strs IH]; cbn; [apply not_elem_of_nil |].
  apply not_elem_of_app. split; [apply c_bytes_no_NUL | exact IH].
Qed.

(** X10.  After a reset and one or more appends that return, the buffer
    read as a C string, as the host and the recursive call read it, is
    the appended strings one after the other, and its [strlen] is
    [used]; what the buffer held before the reset plays no part. *)
Theorem X10_buffer_as_c_string pb strs pb' :
  well_sized pb -> strs <> [] ->
  push_all (reset_path pb) strs = Done pb' ->
  c_bytes (buffer pb') = concat (map c_bytes strs)
  /\ strlen (buffer pb') = used pb'.
Proof.
  intros Hws Hne E.
  destruct (push_all_done strs (reset_path pb) pb' Hws ltac:(cbn; lia) E)
    as (_ & Hu & Ht & Hn).
  destruct (Hn Hne) as [_ Hnul]. cbn in Hu, Ht.
  assert (Hc : c_bytes (buffer pb') = concat (map c_bytes strs)).
  { rewrite <- (take_drop_middle _ _ _ Hnul), Ht.
    apply c_bytes_app_NUL, concat_c_bytes_no_NUL. }
  split; [exact Hc |]. unfold strlen. rewrite Hc. lia.
Qed.

Lemma X10_buffer_as_c_string_witness :
  exists pb', push_all (reset_path zeroed) [lit "."; lit "\"; lit "x.txt"] = Done pb'
              /\ c_bytes (buffer pb') = lit ".\x.txt"
              /\ strlen (buffer pb') = used pb'.
Proof.
  destruct (pattern_fits zeroed (lit ".") (lit "x.txt") zeroed_well_sized) as [pb' E];
    [vm_compute; reflexivity |].
  exists pb'. split; [exact E |].
  apply (X10_buffer_as_c_string zeroed [lit "."; lit "\"; lit "x.txt"] pb'
           zeroed_well_sized ltac:(discriminate) E).
Defined.

End MorePathFacts.

(** * More facts about the walk on the arena *)

Lemma lift_stop {A : Type} (e : fault) m : lift (Stop e : outcome A) m = Stop e.
Proof. reflexivity. Qed.





Lemma loop_body_pseudo v host root e st m :
  pseudo_entry e = true -> loop_body v host root e st m = Done (st, m).
Proof.
  destruct e as [attrs cFileName contents]. cbn [pseudo_entry]. intros H.
  rewrite loop_body_eq, H. reflexivity.
Qed.

Lemma do_while_app {S : Type} (body : dirent -> S -> Run S) es1 es2 :
  forall s m,
    do_while body (es1 ++ es2) s m
    = (s' ← do_while body es1 s; do_while body es2 s') m.
Proof.
  induction es1 as [| e es1 IH]; intros s m.
  - reflexivity.
  - cbn [app do_while]. unfold mbind, Run_bind.
    destruct (body e s m) as [[s1 m1] | err]; [| reflexivity].
    apply IH.
Qed.

(** X13.  A directory for which the host yields nothing but [.] and
    [..] costs nothing: the walk returns and leaves the arena and the
    memory as they were, whatever the host would say to a commit. *)
Theorem X13_only_pseudo_entries v host root entries strings m :
  strlen root + 2 < MAX_PATH ->
  entries <> [] ->
  forallb pseudo_entry entries = true ->
  get_file_list_custom v host root entries strings m = Done (tt, m).
Proof.
  intros Hfit Hne Hall.
  destruct (prologue_fits root Hfit) as (p1 & p2 & E1 & E2 & _).
  unfold get_file_list_custom, get_file_list_with.
  rewrite (bind_step _ _ m p1 m) by (rewrite E1; reflexivity).
  rewrite (bind_step _ _ m p2 m) by (rewrite E2; reflexivity).
  assert (Hloop : do_while (loop_body v host root) entries (p2, strings) m
                  = Done ((p2, strings), m)).
  { clear Hne. induction entries as [| e entries IH]; [reflexivity |].
    cbn [forallb] in Hall. apply andb_prop in Hall as [He Hrest].
    cbn [do_while].
    rewrite (bind_step _ _ _ _ _ (loop_body_pseudo v host root e _ m He)).
    exact (IH Hrest). }
  destruct entries as [| e entries]; [contradiction |].
  rewrite (bind_step _ _ _ _ _ Hloop). reflexivity.
Qed.

Lemma X13_only_pseudo_entries_witness :
  get_file_list_custom main_cpp host_refuses (lit ".\empty") pseudo_entries 65536
                       (main_machine 65536)
  = Done (tt, main_machine 65536).
Proof.
  apply (X13_only_pseudo_entries main_cpp host_refuses (lit ".\empty") pseudo_entries
           65536 (main_machine 65536)).
  - vm_compute. reflexivity.
  - discriminate.
  - reflexivity.
Defined.

(** X14.  An entry named [.] or [..] is skipped wherever the host yields
    it: the walk over an enumeration with such an entry in it ends as the
    walk over the enumeration without it, failures included, as long as
    another entry is left. *)
Theorem X14_pseudo_entry_is_skipped v host root before e after strings m :
  pseudo_entry e = true ->
  before ++ after <> [] ->
  get_file_list_custom v host root (before ++ e :: after) strings m
  = get_file_list_custom v host root (before ++ after) strings m.
Proof.
  intros He Hne.
  unfold get_file_list_custom, get_file_list_with, mbind, Run_bind.
  destruct (lift (Path.push_path Path.zeroed root) m) as [[p1 m1] | err]; [| reflexivity].
  destruct (lift (Path.push_path p1 (lit "\*")) m1) as [[p2 m2] | err]; [| reflexivity].
  assert (Hloop : do_while (loop_body v host root) (before ++ e :: after) (p2, strings) m2
                  = do_while (loop_body v host root) (before ++ after) (p2, strings) m2).
  { rewrite !do_while_app. unfold mbind, Run_bind.
    destruct (do_while (loop_body v host root) before (p2, strings) m2)
      as [[s3 m3] | err]; [| reflexivity].
    cbn [do_while]. rewrite (bind_step _ _ _ _ _ (loop_body_pseudo v host root e s3 m3 He)).
    reflexivity. }
  destruct (before ++ e :: after) as [| x xs] eqn:Ex;
    [destruct before; discriminate Ex |].
  destruct (before ++ after) as [| y ys] eqn:Ey; [contradiction |].
  fold (@mbind Run _). unfold mbind, Run_bind. rewrite Hloop. reflexivity.
Qed.

Lemma X14_pseudo_entry_is_skipped_witness :
  get_file_list_custom main_cc host_grants (lit ".")
                       ([Dirent 32 (lit "a") []] ++ Dirent 16 (lit "..") [] :: []) 65536
                       (main_machine 65536)
  = get_file_list_custom main_cc host_grants (lit ".")
                         ([Dirent 32 (lit "a") []] ++ []) 65536 (main_machine 65536).
Proof.
  apply (X14_pseudo_entry_is_skipped main_cc host_grants (lit ".")
           [Dirent 32 (lit "a") []] (Dirent 16 (lit "..") []) [] 65536
           (main_machine 65536)).
  - reflexivity.
  - discriminate.
Defined.

Lemma total_bytes_app v l1 l2 :
  total_bytes v (l1 ++ l2) = total_bytes v l1 + total_bytes v l2.
Proof.
  induction l1 as [| p l1 IH]; [reflexivity |].
  cbn [app total_bytes fold_right]. fold (total_bytes v (l1 ++ l2)).
  fold (total_bytes v l1). lia.
Qed.

Lemma demand_is_total v e : forall root,
  demand v root e = total_bytes v (discovered root e).
Proof.
  induction e as [attrs cFileName contents IH] using dirent_ind. intros root.
  cbn [demand discovered]. destruct (is_pseudo cFileName); [reflexivity |].
  cbn [total_bytes fold_right]. f_equal.
  destruct (is_directory attrs); [| reflexivity].
  generalize (join root cFileName) as r. intros r.
  induction IH as [| e contents He _ IHc]; [reflexivity |].
  cbn [fold_right flat_map]. fold (total_bytes v (discovered r e ++ flat_map (discovered r) contents)).
  rewrite total_bytes_app, He, IHc. reflexivity.
Qed.

Lemma demand_all_is_total v root entries :
  demand_all v root entries = total_bytes v (preorder root entries).
Proof.
  unfold demand_all, preorder.
  induction entries as [| e entries IH]; [reflexivity |].
  cbn [fold_right flat_map]. rewrite total_bytes_app, demand_is_total, IH. reflexivity.
Qed.

(** X15.  With paths that fit, directories that yield an entry, a host
    that grants every commit and room in the reservation, the walk takes
    from the arena exactly the bytes of its nodes: for each path listed,
    one block of [sizeof(FileName) + length] bytes rounded up to the
    alignment.  It ends inside the reservation, and base and reservation
    are what they were. *)
Theorem X15_walk_consumes_node_bytes v host root entries strings m l :
  tidy m -> listed (heap m) strings l ->
  walkable_all root entries = true ->
  (forall b n, host b n = true) ->
  0 < Arena.base (arena m) ->
  Arena.used (arena m) + total_bytes v (preorder root entries)
  <= Arena.reserved (arena m) ->
  exists m',
    get_file_list_custom v host root entries strings m = Done (tt, m')
    /\ Arena.used (arena m')
       = Arena.used (arena m) + total_bytes v (preorder root entries)
    /\ Arena.used (arena m') <= Arena.reserved (arena m')
    /\ Arena.base (arena m') = Arena.base (arena m)
    /\ Arena.reserved (arena m') = Arena.reserved (arena m).
Proof.
  intros Ht (ps & Hch & _) Hwalk Hhost Hbase Hroom.
  rewrite <- demand_all_is_total in *.
  assert (Hin : strings ∈ ps).
  { destruct (chain_head _ _ _ Hch) as [ps' ->]. apply list_elem_of_here. }
  assert (Hall : Forall (iteration_returns v host) entries).
  { apply Forall_forall. intros e _. apply loop_body_returns. }
  destruct (get_file_list_returns v host root entries Hall strings m strings ps
              Ht Hch Hin Hwalk Hhost Hbase Hroom) as (m' & Hrun & Hu & Hb & Hr).
  exists m'. repeat split; [exact Hrun | exact Hu | lia | exact Hb | exact Hr].
Qed.

Lemma X15_walk_consumes_node_bytes_witness :
  exists m',
    get_file_list_custom main_cpp host_grants (lit ".") example_entries 65536
                         (main_machine 65536) = Done (tt, m')
    /\ Arena.used (arena m') = 32 + 96
    /\ Arena.used (arena m') <= Arena.reserved (arena m')
    /\ Arena.base (arena m') = 65536
    /\ Arena.reserved (arena m') = 1024 * 1024 * 1024.
Proof.
  change (32 + 96) with (Arena.used (arena (main_machine 65536))
                         + total_bytes main_cpp (preorder (lit ".") example_entries)).
  apply (X15_walk_consumes_node_bytes main_cpp host_grants (lit ".") example_entries
           65536 (main_machine 65536) [lit "."]).
  - apply main_machine_tidy. lia.
  - apply main_machine_listed. lia.
  - reflexivity.
  - reflexivity.
  - cbn. lia.
  - vm_compute. discriminate.
Defined.

(** * The count loops and the blocks of [main] *)

Lemma wrap_add_l a b : wrap (wrap a + b) = wrap (a + b).
Proof. unfold wrap. apply Zplus_mod_idemp_l. Qed.

(** The loop counts the nodes of a chain, modulo the range of [size_t]. *)
Lemma count_loop_chain m p ps :
  chain (heap m) p ps ->
  forall fuel file_count,
    (length ps < fuel)%nat ->
    count_loop fuel p file_count m
    = Done (wrap (file_count + Z.of_nat (length ps)), m).
Proof.
  induction 1 as [p n Hp Hn Hnx | p n ps Hp Hn Hnx Hch IH]; intros fuel c Hfuel.
  - destruct fuel as [| [| fuel]]; [cbn in Hfuel; lia | cbn in Hfuel; lia |].
    cbn [count_loop]. destruct (Z.eqb_spec p Arena.NULL) as [| _]; [contradiction |].
    rewrite (bind_step _ _ m (Node.next n) m).
    + rewrite Hnx. cbn. reflexivity.
    + unfold load_next. destruct (Z.eqb_spec p Arena.NULL) as [| _]; [contradiction |].
      rewrite Hn. reflexivity.
  - destruct fuel as [| fuel]; [cbn in Hfuel; lia |].
    cbn [count_loop]. destruct (Z.eqb_spec p Arena.NULL) as [| _]; [contradiction |].
    rewrite (bind_step _ _ m (Node.next n) m).
    + rewrite IH by (cbn in Hfuel; lia). unfold size_add. rewrite wrap_add_l.
      do 3 f_equal. cbn [length]. lia.
    + unfold load_next. destruct (Z.eqb_spec p Arena.NULL) as [| _]; [contradiction |].
      rewrite Hn. reflexivity.
Qed.

Lemma count_nodes_listed m first l :
  listed (heap m) first l ->
  count_nodes first m = Done (wrap (Z.of_nat (length l) - 1), m).
Proof.
  intros (ps & Hch & <-). rewrite length_map.
  pose proof (chain_length _ _ _ Hch) as Hlen.
  unfold count_nodes.
  inversion Hch as [p n Hp Hn Hnx | p n qs Hp Hn Hnx Hq]; subst.
  - rewrite (bind_step _ _ m (Node.next n) m).
    + rewrite Hnx. reflexivity.
    + unfold load_next. destruct (Z.eqb_spec first Arena.NULL) as [| _]; [contradiction |].
      rewrite Hn. reflexivity.
  - rewrite (bind_step _ _ m (Node.next n) m).
    + unfold count_from. rewrite (count_loop_chain m _ qs Hq) by (cbn in Hlen; lia).
      do 3 f_equal. cbn [length]. lia.
    + unfold load_next. destruct (Z.eqb_spec first Arena.NULL) as [| _]; [contradiction |].
      rewrite Hn. reflexivity.
Qed.



(** The first allocation of the third block of [main]. *)
Lemma main_first_alloc v host region :
  host region 409600 = true ->
  Arena.alloc v host (Arena.make region (1024 * 1024 * 1024))
              (size_add sizeof_FileName sizeof_char)
  = (Arena.Block region, arena (main_machine region)).
Proof.
  intros Hhost. unfold Arena.alloc, Arena.make, main_machine.
  cbn [Arena.used Arena.reserved Arena.committed Arena.base arena].
  destruct v.
  - match goal with
    | |- context [if ?c then Some ?a else None] =>
        change c with (host region 409600); rewrite Hhost
    end.
    clear Hhost. destruct region; reflexivity.
  - match goal with
    | |- context [if ?c then Some ?a else None] =>
        change c with (host region 409600); rewrite Hhost
    end.
    clear Hhost. destruct region; reflexivity.
Qed.

(** The third block of [main] calls the walk in [main_machine]. *)
Lemma main_custom_eq v host region entries :
  host region 409600 = true -> region <> 0 ->
  main_custom v host region entries
  = match get_file_list_custom v host (lit ".") entries region (main_machine region) with
    | Done (_, m1) => Done (region, m1)
    | Stop e => Stop e
    end.
Proof.
  intros Hhost Hr. unfold main_custom.
  rewrite (bind_step _ _ _ region
             {| arena := arena (main_machine region); heap := ∅ |}).
  2:{ rewrite call_alloc_done. cbn [arena heap].
      rewrite main_first_alloc by exact Hhost. reflexivity. }
  unfold store_field, mbind, Run_bind.
  destruct (Z.eqb_spec region Arena.NULL) as [| _]; [contradiction |].
  cbn [arena heap].
  rewrite !insert_insert_eq. unfold node_at.
  rewrite !lookup_insert_eq, lookup_empty. cbn [default].
  rewrite insert_empty.
  match goal with
  | |- context [get_file_list_custom _ _ _ _ _ ?m] => change m with (main_machine region)
  end.
  destruct (get_file_list_custom v host (lit ".") entries region (main_machine region))
    as [[u m1] | e]; reflexivity.
Qed.

(** X17.  The third block of [main], run to the count it prints: when
    the reservation succeeded, the host grants every commit, the paths
    fit the buffer, every directory yields an entry and the nodes fit
    the reservation of 1 GiB, the count is the number of entries below
    ["."], [.] and [..] left out and the first node not counted. *)
Theorem X17_main_custom_counts_entries v host region entries :
  (forall b n, host b n = true) -> 0 < region ->
  walkable_all (lit ".") entries = true ->
  32 + total_bytes v (preorder (lit ".") entries) <= 1024 * 1024 * 1024 ->
  main_custom_count v host region entries
  = Done (wrap (Z.of_nat (length (preorder (lit ".") entries)))).
Proof.
  intros Hhost Hregion Hwalk Hroom.
  rewrite <- demand_all_is_total in Hroom.
  destruct (walk_returns v host (lit ".") entries region (main_machine region) [lit "."]
              (main_machine_tidy region Hregion)
              (main_machine_listed region ltac:(lia)) Hwalk Hhost Hregion Hroom)
    as (m' & Hrun & Hlist).
  unfold main_custom_count.
  rewrite (main_custom_eq v host region entries (Hhost _ _) ltac:(lia)), Hrun.
  rewrite (count_nodes_listed m' region _ Hlist).
  do 2 f_equal. cbn [length app]. lia.
Qed.

Lemma X17_main_custom_counts_entries_witness :
  main_custom_count main_cc host_grants 65536 example_entries = Done 3.
Proof.
  apply (X17_main_custom_counts_entries main_cc host_grants 65536 example_entries).
  - reflexivity.
  - lia.
  - reflexivity.
  - vm_compute. discriminate.
Defined.

(** X18.  The third block of [main] tests neither the reservation nor
    its first allocation: when the reservation failed (the region is the
    null pointer) or the host refuses the first commit, the store
    [first->length = 1] goes through the null pointer. *)
Theorem X18_main_first_node_unchecked v host region entries :
  region = Arena.NULL \/ host region 409600 = false ->
  main_custom v host region entries = Stop NullWrite.
Proof.
  intros H. unfold main_custom.
  erewrite bind_step by apply call_alloc_done.
  cbn [arena heap].
  assert (E : Arena.ptr_of
                (fst (Arena.alloc v host (Arena.make region (1024 * 1024 * 1024))
                        (size_add sizeof_FileName sizeof_char))) = Arena.NULL).
  { unfold Arena.alloc, Arena.make.
    cbn [Arena.used Arena.reserved Arena.committed Arena.base].
    destruct H as [-> | Hhost].
    - destruct v;
        match goal with
        | |- context [if ?c then Some ?a else None] =>
            change c with (host Arena.NULL 409600);
            destruct (host Arena.NULL 409600); reflexivity
        end.
    - destruct v;
        match goal with
        | |- context [if ?c then Some ?a else None] =>
            change c with (host region 409600); rewrite Hhost; reflexivity
        end. }
  rewrite E. apply bind_stop, store_field_null.
Qed.

Lemma X18_main_first_node_unchecked_witness :
  main_custom main_cpp host_grants 0 example_entries = Stop NullWrite.
Proof.
  apply (X18_main_first_node_unchecked main_cpp host_grants 0 example_entries).
  left. reflexivity.
Defined.

(** * The version on [std::string] and [std::vector] *)

Lemma stl_pattern root cFileName :
  NUL ∉ root ->
  std_append_cstr (std_append_cstr (std_append [] root) (lit "\")) cFileName
  = join root cFileName.
Proof.
  intros Hr. unfold std_append_cstr, std_append, join.
  rewrite (c_bytes_id root Hr), <- app_assoc. reflexivity.
Qed.

(** What an iteration and a loop of the STL version give, read off the
    vector: the paths in pre-order behind what was there, unless a
    directory that is walked yields nothing. *)
Lemma stl_do_while_spec root entries :
  NUL ∉ root ->
  Forall (fun e => forall root st,
              NUL ∉ root ->
              match stl_body root e st with
              | Done st' => yields e = true /\ snd st' = snd st ++ discovered root e
              | Stop err => yields e = false /\ err = NoFindData
              end) entries ->
  forall st,
    match stl_do_while (stl_body root) entries st with
    | Done st' => forallb yields entries = true
                  /\ snd st' = snd st ++ preorder root entries
    | Stop err => forallb yields entries = false /\ err = NoFindData
    end.
Proof.
  intros Hr. induction 1 as [| e entries He _ IH]; intros st.
  - cbn. rewrite app_nil_r. split; reflexivity.
  - cbn [stl_do_while forallb preorder flat_map]. unfold mbind, outcome_bind.
    specialize (He root st Hr).
    destruct (stl_body root e st) as [st1 | err].
    + destruct He as [-> E1]. specialize (IH st1).
      destruct (stl_do_while (stl_body root) entries st1) as [st' | err].
      * destruct IH as [-> E2]. split; [reflexivity |].
        rewrite E2, E1, <- app_assoc. reflexivity.
      * destruct IH as [-> ->]. split; reflexivity.
    + destruct He as [-> ->]. split; reflexivity.
Qed.

Lemma stl_body_spec e : forall root st,
  NUL ∉ root ->
  match stl_body root e st with
  | Done st' => yields e = true /\ snd st' = snd st ++ discovered root e
  | Stop err => yields e = false /\ err = NoFindData
  end.
Proof.
  induction e as [attrs cFileName contents IH] using dirent_ind. intros root st Hr.
  cbn [stl_body yields discovered].
  destruct (is_pseudo cFileName).
  { cbn. rewrite app_nil_r. split; reflexivity. }
  rewrite (stl_pattern root cFileName Hr).
  destruct (is_directory attrs); cbn [negb orb].
  2:{ split; reflexivity. }
  unfold get_file_list_stl_with.
  destruct contents as [| c contents].
  { cbn. split; reflexivity. }
  pose proof (stl_do_while_spec (join root cFileName) (c :: contents)
                (join_no_NUL root cFileName) IH
                (std_append_cstr (std_append [] (join root cFileName)) (lit "\*"),
                 snd st ++ [join root cFileName])) as Hloop.
  unfold mbind, outcome_bind at 1.
  unfold mbind, outcome_bind at 1.
  destruct (stl_do_while _ _ _) as [st' | err].
  - destruct Hloop as [Hy E]. cbn [snd] in E.
    change (negb (Nat.eqb (length (c :: contents)) 0)) with true.
    rewrite Hy. split; [reflexivity |].
    cbn [mret outcome_ret snd]. unfold mret, outcome_ret. cbn [snd].
    rewrite E, <- app_assoc. reflexivity.
  - destruct Hloop as [Hy ->].
    change (negb (Nat.eqb (length (c :: contents)) 0)) with true.
    rewrite Hy. split; reflexivity.
Qed.

Lemma get_file_list_stl_spec root entries strings :
  NUL ∉ root ->
  get_file_list_stl root entries strings
  = if yields_all entries then Done (strings ++ preorder root entries)
    else Stop NoFindData.
Proof.
  intros Hr. unfold get_file_list_stl, get_file_list_stl_with, yields_all.
  destruct entries as [| e entries]; [reflexivity |].
  change (negb (Nat.eqb (length (e :: entries)) 0)) with true. cbn [andb].
  pose proof (stl_do_while_spec root (e :: entries) Hr
                ltac:(apply Forall_forall; intros x _; apply stl_body_spec)
                (std_append_cstr (std_append [] root) (lit "\*"), strings)) as Hloop.
  unfold mbind, outcome_bind.
  destruct (stl_do_while _ _ _) as [st' | err].
  - destruct Hloop as [-> E]. cbn [snd] in E. unfold mret, outcome_ret. rewrite E.
    reflexivity.
  - destruct Hloop as [-> ->]. reflexivity.
Qed.

(** X19.  The STL version on a root without a terminator in it: it
    returns the vector with the paths of the entries appended in
    pre-order, unless a directory it walks yields no entry at all, in
    which case [find_data] is read without having been written.  No
    path is too long for it. *)
Theorem X19_stl_appends_preorder root entries strings :
  NUL ∉ root ->
  get_file_list_stl root entries strings
  = if yields_all entries then Done (strings ++ preorder root entries)
    else Stop NoFindData.
Proof. exact (get_file_list_stl_spec root entries strings). Qed.

Lemma X19_stl_appends_preorder_witness :
  get_file_list_stl (lit ".") example_entries []
  = Done [lit ".\a"; lit ".\b"; lit ".\b\c"].
Proof.
  apply (X19_stl_appends_preorder (lit ".") example_entries []).
  vm_compute. intros H. apply list_elem_of_singleton in H. discriminate H.
Defined.

Lemma lit_dot_no_NUL : NUL ∉ lit ".".
Proof. intros H. apply list_elem_of_singleton in H. discriminate H. Qed.

(** X20.  The first block of [main], run to the count it prints: the
    number of entries below ["."], [.] and [..] left out, whenever every
    directory that is walked yields an entry. *)
Theorem X20_main_stl_counts_entries entries :
  main_stl_count entries
  = if yields_all entries
    then Done (wrap (Z.of_nat (length (preorder (lit ".") entries))))
    else Stop NoFindData.
Proof.
  unfold main_stl_count.
  rewrite (get_file_list_stl_spec (lit ".") entries [] lit_dot_no_NUL).
  destruct (yields_all entries); reflexivity.
Qed.

(** A walk on the arena that returns has found an entry in every
    directory it walked. *)
Lemma do_while_yields v host root entries :
  Forall (fun e => forall root st m r,
              loop_body v host root e st m = Done r -> yields e = true) entries ->
  forall st m r,
    do_while (loop_body v host root) entries st m = Done r ->
    forallb yields entries = true.
Proof.
  induction 1 as [| e entries He _ IH]; intros st m r H; [reflexivity |].
  cbn [do_while] in H. apply bind_done in H as (st1 & m1 & H1 & H).
  cbn [forallb]. rewrite (He root st m _ H1), (IH st1 m1 r H). reflexivity.
Qed.

Lemma get_file_list_yields v host root entries :
  Forall (fun e => forall root st m r,
              loop_body v host root e st m = Done r -> yields e = true) entries ->
  forall strings m r,
    get_file_list_custom v host root entries strings m = Done r ->
    yields_all entries = true.
Proof.
  intros Hall strings m r H.
  unfold get_file_list_custom, get_file_list_with in H.
  apply bind_done in H as (p1 & m1 & _ & H).
  apply bind_done in H as (p2 & m2 & _ & H).
  destruct entries as [| e entries]; [discriminate H |].
  apply bind_done in H as (st' & m3 & H3 & _).
  unfold yields_all. rewrite (do_while_yields v host root _ Hall _ _ _ H3). reflexivity.
Qed.

Lemma loop_body_yields v host e : forall root st m r,
  loop_body v host root e st m = Done r -> yields e = true.
Proof.
  induction e as [attrs cFileName contents IH] using dirent_ind.
  intros root st m r H. rewrite loop_body_eq in H. cbn [yields].
  destruct (is_pseudo cFileName); [reflexivity |].
  destruct (is_directory attrs); [| reflexivity]. cbn [negb orb].
  apply bind_done in H as (p1 & m1 & _ & H).
  apply bind_done in H as (p2 & m2 & _ & H).
  apply bind_done in H as (pattern & m3 & _ & H).
  apply bind_done in H as (file & m4 & _ & H).
  apply bind_done in H as (u1 & m5 & _ & H).
  apply bind_done in H as (u2 & m6 & _ & H).
  apply bind_done in H as (u3 & m7 & _ & H).
  apply bind_done in H as (t & m8 & _ & H).
  apply bind_done in H as (u4 & m9 & _ & H).
  apply bind_done in H as (u5 & m10 & H10 & _).
  exact (get_file_list_yields v host _ contents IH _ _ _ H10).
Qed.

(** X21.  The version on the arena and the STL version agree: whenever
    the walk on the arena returns, started in a tidy machine on a list
    that holds the paths [l], the STL version run on the same
    enumeration with the vector [l] returns too, and its vector is the
    list the arena version leaves in memory. *)
Theorem X21_arena_walk_agrees_with_stl v host root entries strings m u m' l :
  NUL ∉ root ->
  tidy m -> listed (heap m) strings l ->
  get_file_list_custom v host root entries strings m = Done (u, m') ->
  exists l',
    get_file_list_stl root entries l = Done l'
    /\ listed (heap m') strings l'.
Proof.
  intros Hr Ht Hl H.
  exists (l ++ preorder root entries). split.
  - rewrite (get_file_list_stl_spec root entries l Hr).
    rewrite (get_file_list_yields v host root entries
               ltac:(apply Forall_forall; intros e _; apply loop_body_yields)
               strings m _ H).
    reflexivity.
  - exact (walk_lists_preorder v host root entries strings m u m' l Ht Hl H).
Qed.

Lemma X21_arena_walk_agrees_with_stl_witness :
  exists l' m',
    get_file_list_custom main_cpp host_grants (lit ".") example_entries 65536
                         (main_machine 65536) = Done (tt, m')
    /\ get_file_list_stl (lit ".") example_entries [lit "."] = Done l'
    /\ listed (heap m') 65536 l'.
Proof.
  destruct (walk_returns main_cpp host_grants (lit ".") example_entries 65536
              (main_machine 65536) [lit "."]
              (main_machine_tidy 65536 ltac:(lia))
              (main_machine_listed 65536 ltac:(lia)))
    as (m' & Hrun & _);
    [reflexivity | reflexivity | cbn; lia | vm_compute; discriminate |].
  destruct (X21_arena_walk_agrees_with_stl main_cpp host_grants (lit ".") example_entries
              65536 (main_machine 65536) tt m' [lit "."] lit_dot_no_NUL
              (main_machine_tidy 65536 ltac:(lia))
              (main_machine_listed 65536 ltac:(lia)) Hrun) as (l' & E & Hl).
  exists l', m'. split; [exact Hrun |]. split; [exact E | exact Hl].
Defined.

(** * The version on [malloc] *)

Section NostlFacts.

Variable v : variant.
Variable malloc : gmap Z Node.FileName -> Z -> Z.
Variable stack_garbage : list ascii -> Path.PathBuilder.

Hypothesis malloc_is_apart : malloc_apart malloc.
Hypothesis garbage_well_sized : forall root, Path.well_sized (stack_garbage root).

Lemma nostl_body_eq root attrs cFileName contents st :
  nostl_body v malloc stack_garbage root (Dirent attrs cFileName contents) st
  = if is_pseudo cFileName then mret st
    else
      pattern ← lift (Path.push_path (Path.reset_path (fst st)) root);
      pattern ← lift (Path.push_path pattern (lit "\"));
      pattern ← lift (Path.push_path pattern cFileName);
      file ← call_malloc malloc (size_add sizeof_FileName
                                   (size_mul (Path.used pattern) sizeof_char));
      store_field (Node.set_length (Path.used pattern)) file;;
      store_field (Node.set_next Arena.NULL) file;;
      store_field (Node.set_name
                     (firstn (Z.to_nat (size_add (Path.used pattern) 1))
                             (Path.buffer pattern))) file;;
      strings ← find_tail (snd st);
      store_field (Node.set_next file) strings;;
      (if is_directory attrs
       then get_file_list_nostl v malloc stack_garbage (Path.buffer pattern) contents strings
       else mret tt);;
      mret (pattern, strings).
Proof. reflexivity. Qed.

Lemma declared_pattern_well_sized root :
  Path.well_sized (declared_pattern v stack_garbage root).
Proof.
  unfold declared_pattern. destruct v; [apply zeroed_well_sized |].
  apply reset_path_well_sized, garbage_well_sized.
Qed.

(** A block of [malloc] is no live node. *)
Lemma malloc_fresh h n :
  0 < n -> malloc h n <> Arena.NULL -> h !! malloc h n = None.
Proof.
  intros Hn Hp. destruct (h !! malloc h n) as [nq |] eqn:E; [| reflexivity].
  destruct (malloc_is_apart h n Hn Hp _ _ E) as [H | H]; [lia |].
  unfold node_end, sizeof_FileName in H. lia.
Qed.

Lemma extended_refl h p0 ps : chain h p0 ps -> extended h h p0 ps [] [].
Proof. intros Hch. unfold extended. rewrite app_nil_r. repeat split; assumption. Qed.

Lemma extended_trans h h1 h2 p0 ps qs1 qs2 paths1 paths2 :
  extended h h1 p0 ps qs1 paths1 ->
  extended h1 h2 p0 (ps ++ qs1) qs2 paths2 ->
  extended h h2 p0 ps (qs1 ++ qs2) (paths1 ++ paths2).
Proof.
  intros (Hc1 & Hp1 & Hk1) (Hc2 & Hp2 & Hk2).
  split; [rewrite app_assoc; exact Hc2 |]. split.
  - rewrite map_app, Hp2. f_equal. rewrite <- Hp1.
    apply map_ext_in. intros q Hq. apply Hk2.
    apply elem_of_app. right. apply list_elem_of_In. exact Hq.
  - intros q Hq. rewrite Hk2 by (apply elem_of_app; left; exact Hq). apply Hk1, Hq.
Qed.

Lemma nostl_do_while_extends root entries :
  Forall (iteration_extends v malloc stack_garbage) entries ->
  forall st m st' m' p0 ps,
    Path.well_sized (fst st) ->
    chain (heap m) p0 ps -> snd st ∈ ps ->
    do_while (nostl_body v malloc stack_garbage root) entries st m = Done (st', m') ->
    Path.well_sized (fst st')
    /\ exists qs, snd st' ∈ ps ++ qs
                  /\ extended (heap m) (heap m') p0 ps qs (preorder root entries).
Proof.
  induction 1 as [| e entries He _ IH]; intros st m st' m' p0 ps Hws Hch Hin H.
  - apply ret_done in H as [-> ->]. split; [exact Hws |].
    exists []. rewrite app_nil_r. split; [exact Hin | apply extended_refl; assumption].
  - cbn [do_while] in H. apply bind_done in H as (st1 & m1 & H1 & H).
    destruct (He root st m st1 m1 p0 ps Hws Hch Hin H1) as (Hws1 & qs1 & Hin1 & Hg1).
    destruct (IH st1 m1 st' m' p0 (ps ++ qs1) Hws1 ltac:(apply Hg1) Hin1 H)
      as (Hws' & qs2 & Hin2 & Hg2).
    split; [exact Hws' |]. exists (qs1 ++ qs2).
    split; [rewrite app_assoc; exact Hin2 |].
    exact (extended_trans _ _ _ _ _ _ _ _ _ Hg1 Hg2).
Qed.

Lemma get_file_list_nostl_extends root entries :
  Forall (iteration_extends v malloc stack_garbage) entries ->
  forall strings m u m' p0 ps,
    chain (heap m) p0 ps -> strings ∈ ps ->
    get_file_list_nostl v malloc stack_garbage root entries strings m = Done (u, m') ->
    exists qs, extended (heap m) (heap m') p0 ps qs (preorder root entries).
Proof.
  intros Hall strings m u m' p0 ps Hch Hin H.
  unfold get_file_list_nostl, get_file_list_nostl_with in H.
  apply bind_done in H as (p1 & m1 & H1 & H). apply lift_done in H1 as [E1 ->].
  apply bind_done in H as (p2 & m2 & H2 & H). apply lift_done in H2 as [E2 ->].
  destruct (push_path_done _ _ _ (declared_pattern_well_sized root) E1)
    as (_ & _ & _ & Hws1 & _).
  destruct (push_path_done _ _ _ Hws1 E2) as (_ & _ & _ & Hws2 & _).
  destruct entries as [| e entries]; [discriminate H |].
  apply bind_done in H as (st' & m3 & H3 & H). apply ret_done in H as [_ <-].
  destruct (nostl_do_while_extends root (e :: entries) Hall (p2, strings) m st' m' p0 ps
              Hws2 Hch Hin H3) as (_ & qs & _ & Hg).
  exists qs. exact Hg.
Qed.

Lemma nostl_body_extends e : iteration_extends v malloc stack_garbage e.
Proof.
  induction e as [attrs cFileName contents IH] using dirent_ind.
  intros root st m st' m' p0 ps Hws Hch Hin H.
  rewrite nostl_body_eq in H. cbn [discovered].
  destruct (is_pseudo cFileName).
  { apply ret_done in H as [-> ->]. split; [exact Hws |].
    exists []. rewrite app_nil_r. split; [exact Hin | apply extended_refl; assumption]. }
  apply bind_done in H as (p1 & m1 & H1 & H). apply lift_done in H1 as [E1 ->].
  apply bind_done in H as (p2 & m2 & H2 & H). apply lift_done in H2 as [E2 ->].
  apply bind_done in H as (pattern & m3 & H3 & H). apply lift_done in H3 as [E3 ->].
  assert (Hpush : Path.push_all (Path.reset_path (fst st)) [root; lit "\"; cFileName]
                  = Done pattern).
  { cbn [Path.push_all]. unfold mbind, outcome_bind. rewrite E1, E2, E3. reflexivity. }
  destruct (pattern_built _ _ _ _ Hws Hpush) as (Hwsp & Hu & _ & Hbuf & Hname).
  apply bind_done in H as (file & m4 & H4 & H).
  unfold call_malloc in H4. injection H4 as Efile Em4.
  apply bind_done in H as (u1 & m5 & H5 & H).
  apply store_field_done in H5 as (Hfile & Ha5 & Hh5).
  apply bind_done in H as (u2 & m6 & H6 & H).
  apply store_field_done in H6 as (_ & Ha6 & Hh6).
  apply bind_done in H as (u3 & m7 & H7 & H).
  apply store_field_done in H7 as (_ & Ha7 & Hh7).
  apply bind_done in H as (t & m8 & H8 & H).
  apply bind_done in H as (u4 & m9 & H9 & H).
  apply store_field_done in H9 as (Ht0 & Ha9 & Hh9).
  apply bind_done in H as (u5 & m10 & H10 & H).
  apply ret_done in H as [-> ->].
  (* the block *)
  assert (Hsize : size_add sizeof_FileName (size_mul (Path.used pattern) sizeof_char)
                  = 24 + Path.used pattern).
  { unfold size_mul, sizeof_char, sizeof_FileName, MAX_PATH in *.
    rewrite Z.mul_1_r, wrap_small by (unfold is_size_t, SIZE_WIDTH; lia).
    apply size_add_small. lia. }
  assert (Hfresh : heap m !! file = None).
  { rewrite <- Efile. rewrite <- Efile in Hfile.
    apply malloc_fresh; [rewrite Hsize; lia | exact Hfile]. }
  (* the three stores *)
  assert (Hh7' : heap m7
                 = <[file := {| Node.length := Path.used pattern;
                                Node.next := Arena.NULL;
                                Node.name := take (Z.to_nat (size_add (Path.used pattern) 1))
                                                  (Path.buffer pattern) |}]> (heap m)).
  { rewrite Hh7, Hh6, Hh5, <- Em4. apply stores_to_file. }
  (* the tail *)
  destruct (chain_last_node _ _ _ Hch) as (t0 & nt & Hl & Hint & _).
  assert (Hnot : file ∉ ps).
  { intros Hf. destruct (chain_nodes _ _ _ _ Hch Hf) as [_ [n Hn]]. congruence. }
  assert (Hch7 : chain (heap m7) p0 ps).
  { rewrite Hh7'. apply chain_insert_fresh; assumption. }
  rewrite (find_tail_chain m7 p0 ps (snd st) t0 Hch7 Hin Hl) in H8.
  injection H8 as <- <-.
  (* the link *)
  destruct (link_node (heap m) p0 ps t0 file (Path.used pattern)
              (take (Z.to_nat (size_add (Path.used pattern) 1)) (Path.buffer pattern))
              Hch Hl Hfresh Hfile) as (Hch9 & Hpath & Hkeep & _).
  cbn zeta in Hch9, Hpath, Hkeep. rewrite <- Hh7', <- Hh9 in Hch9, Hpath, Hkeep.
  assert (Hg9 : extended (heap m) (heap m9) p0 ps [file] [join root cFileName]).
  { split; [exact Hch9 |]. split; [cbn [map]; rewrite Hpath, Hname; reflexivity |].
    exact Hkeep. }
  split; [exact Hwsp |]. cbn [snd].
  destruct (is_directory attrs).
  - destruct (get_file_list_nostl_extends (Path.buffer pattern) contents IH t0 m9 u5 m10 p0
                (ps ++ [file]) Hch9
                ltac:(apply elem_of_app; left; exact Hint) H10) as (qs & Hg).
    exists ([file] ++ qs). split; [apply elem_of_app; left; exact Hint |].
    rewrite (preorder_root _ (join root cFileName)) in Hg
      by (rewrite Hbuf; symmetry; apply c_bytes_id, join_no_NUL).
    exact (extended_trans _ _ _ _ _ _ _ _ _ Hg9 Hg).
  - apply ret_done in H10 as [_ <-].
    exists [file]. split; [apply elem_of_app; left; exact Hint | exact Hg9].
Qed.

(** The list after a walk on [malloc] that returns. *)
Lemma nostl_walk_lists_preorder root entries strings m u m' l :
  listed (heap m) strings l ->
  get_file_list_nostl v malloc stack_garbage root entries strings m = Done (u, m') ->
  listed (heap m') strings (l ++ preorder root entries).
Proof.
  intros (ps & Hch & Hl) H.
  assert (Hin : strings ∈ ps).
  { destruct (chain_head _ _ _ Hch) as [ps' ->]. apply list_elem_of_here. }
  assert (Hall : Forall (iteration_extends v malloc stack_garbage) entries).
  { apply Forall_forall. intros e _. apply nostl_body_extends. }
  destruct (get_file_list_nostl_extends root entries Hall strings m u m' strings ps
              Hch Hin H) as (qs & Hch' & Hpaths & Hkeep).
  exists (ps ++ qs). split; [exact Hch' |].
  rewrite map_app, Hpaths. f_equal. rewrite <- Hl.
  apply map_ext_in. intros q Hq. apply Hkeep, list_elem_of_In, Hq.
Qed.

End NostlFacts.

(** The first address above every node is apart from every node. *)
Lemma malloc_above_bound h n :
  4096 <= malloc_above h n
  /\ forall q nq, h !! q = Some nq -> node_end q nq <= malloc_above h n.
Proof.
  unfold malloc_above.
  apply (map_fold_weak_ind
           (fun top (h : gmap Z Node.FileName) =>
              4096 <= top /\ forall q nq, h !! q = Some nq -> node_end q nq <= top)).
  - split; [lia |]. intros q nq Hq. rewrite lookup_empty in Hq. discriminate Hq.
  - intros i x m r Hi [Hr IH]. split; [lia |].
    intros q nq Hq. destruct (decide (q = i)) as [-> | Hne].
    + rewrite lookup_insert_eq in Hq. injection Hq as <-. lia.
    + rewrite lookup_insert_ne in Hq by congruence. specialize (IH q nq Hq). lia.
Qed.

Lemma malloc_above_apart : malloc_apart malloc_above.
Proof.
  intros h n Hn _ q nq Hq. right. apply (malloc_above_bound h n), Hq.
Qed.

(** X22.  The version on [malloc], when it returns: with a [malloc]
    whose blocks are apart from the live nodes, the list that held the
    paths [l] holds [l] followed by the paths of the entries in
    pre-order, as for the version on the arena; in [main.cpp] whatever
    the uninitialised [pattern] held. *)
Theorem X22_malloc_walk_lists_preorder v malloc stack_garbage root entries strings m u m' l :
  malloc_apart malloc ->
  (forall r, Path.well_sized (stack_garbage r)) ->
  listed (heap m) strings l ->
  get_file_list_nostl v malloc stack_garbage root entries strings m = Done (u, m') ->
  listed (heap m') strings (l ++ preorder root entries).
Proof.
  intros Hm Hg. exact (nostl_walk_lists_preorder v malloc stack_garbage Hm Hg
                         root entries strings m u m' l).
Qed.

Lemma X22_malloc_walk_lists_preorder_witness :
  exists m',
    get_file_list_nostl main_cpp malloc_above (fun _ => Path.zeroed) (lit ".")
                        example_entries 65536 (main_machine 65536) = Done (tt, m')
    /\ listed (heap m') 65536 [lit "."; lit ".\a"; lit ".\b"; lit ".\b\c"].
Proof.
  destruct (get_file_list_nostl main_cpp malloc_above (fun _ => Path.zeroed) (lit ".")
              example_entries 65536 (main_machine 65536)) as [[[] m'] | e] eqn:E.
  - exists m'. split; [reflexivity |].
    apply (X22_malloc_walk_lists_preorder main_cpp malloc_above (fun _ => Path.zeroed)
             (lit ".") example_entries 65536 (main_machine 65536) tt m' [lit "."]).
    + exact malloc_above_apart.
    + intros r. reflexivity.
    + apply main_machine_listed. lia.
    + exact E.
  - vm_compute in E. discriminate E.
Defined.

(** X23.  The result of [malloc] is used unchecked too: for an entry
    whose path the three appends build, a [malloc] that returns the null
    pointer sends the run into the store [file->length = pattern.used]
    through the null pointer. *)
Theorem X23_malloc_null_is_written v malloc stack_garbage root attrs cFileName contents
        st m pattern :
  is_pseudo cFileName = false ->
  Path.push_all (Path.reset_path (fst st)) [root; lit "\"; cFileName] = Done pattern ->
  malloc (heap m) (size_add sizeof_FileName (size_mul (Path.used pattern) sizeof_char))
  = Arena.NULL ->
  nostl_body v malloc stack_garbage root (Dirent attrs cFileName contents) st m
  = Stop NullWrite.
Proof.
  intros Hpseudo Hpush Hnull.
  destruct (push_all_three _ _ _ _ _ Hpush) as (p1 & p2 & E1 & E2 & E3).
  rewrite nostl_body_eq, Hpseudo.
  rewrite (bind_step _ _ m p1 m) by (rewrite E1; reflexivity).
  rewrite (bind_step _ _ m p2 m) by (rewrite E2; reflexivity).
  rewrite (bind_step _ _ m pattern m) by (rewrite E3; reflexivity).
  rewrite (bind_step _ _ m Arena.NULL m) by (unfold call_malloc; rewrite Hnull; reflexivity).
  apply bind_stop, store_field_null.
Qed.

Lemma X23_malloc_null_is_written_witness :
  nostl_body main_cc (fun _ _ => Arena.NULL) (fun _ => Path.zeroed) (lit ".")
             (Dirent 32 (lit "a") []) (Path.zeroed, 65536) (main_machine 65536)
  = Stop NullWrite.
Proof.
  eapply (X23_malloc_null_is_written main_cc (fun _ _ => Arena.NULL) (fun _ => Path.zeroed)
            (lit ".") 32 (lit "a") [] (Path.zeroed, 65536) (main_machine 65536)).
  - reflexivity.
  - vm_compute. reflexivity.
  - reflexivity.
Defined.

(** The second block of [main]: what a run that returns has built. *)
Lemma main_nostl_listed v malloc stack_garbage entries first m :
  malloc_apart malloc ->
  (forall r, Path.well_sized (stack_garbage r)) ->
  main_nostl v malloc stack_garbage entries = Done (first, m) ->
  listed (heap m) first (lit "." :: preorder (lit ".") entries).
Proof.
  intros Hm Hg H. unfold main_nostl in H.
  apply bind_done in H as (f & m1 & H1 & H).
  unfold call_malloc in H1. injection H1 as Ef Em1.
  apply bind_done in H as (u1 & m2 & H2 & H).
  apply store_field_done in H2 as (Hf & _ & Hh2).
  apply bind_done in H as (u2 & m3 & H3 & H).
  apply store_field_done in H3 as (_ & _ & Hh3).
  apply bind_done in H as (u3 & m4 & H4 & H).
  apply store_field_done in H4 as (_ & _ & Hh4).
  apply bind_done in H as (u4 & m5 & H5 & H).
  apply ret_done in H as [-> ->].
  assert (Hh4' : heap m4 = <[f := {| Node.length := 1; Node.next := Arena.NULL;
                                     Node.name := lit "." ++ [NUL] |}]> ∅).
  { rewrite Hh4, Hh3, Hh2, <- Em1. apply stores_to_file. }
  assert (Hl : listed (heap m4) f [lit "."]).
  { exists [f]. rewrite Hh4'. split.
    - eapply chain_last; [exact Hf | apply lookup_insert_eq | reflexivity].
    - cbn [map]. unfold path_at, node_at. rewrite lookup_insert_eq. reflexivity. }
  exact (nostl_walk_lists_preorder v malloc stack_garbage Hm Hg (lit ".") entries f m4 u4 m5
           [lit "."] Hl H5).
Qed.

(** X24.  The second block of [main], when its walk returns: the list
    holds ["."] and behind it the paths of the entries in pre-order, and
    the count that is printed is the number of these paths, the first
    node not counted. *)
Theorem X24_main_nostl_counts_entries v malloc stack_garbage entries first m :
  malloc_apart malloc ->
  (forall r, Path.well_sized (stack_garbage r)) ->
  main_nostl v malloc stack_garbage entries = Done (first, m) ->
  listed (heap m) first (lit "." :: preorder (lit ".") entries)
  /\ main_nostl_count v malloc stack_garbage entries
     = Done (wrap (Z.of_nat (length (preorder (lit ".") entries)))).
Proof.
  intros Hm Hg H.
  pose proof (main_nostl_listed v malloc stack_garbage entries first m Hm Hg H) as Hl.
  split; [exact Hl |].
  unfold main_nostl_count. rewrite H, (count_nodes_listed m first _ Hl).
  do 2 f_equal. cbn [length]. lia.
Qed.

Lemma X24_main_nostl_counts_entries_witness :
  main_nostl_count main_cc malloc_above (fun _ => Path.zeroed) example_entries = Done 3.
Proof.
  destruct (main_nostl main_cc malloc_above (fun _ => Path.zeroed) example_entries)
    as [[first m] | e] eqn:E.
  - apply (X24_main_nostl_counts_entries main_cc malloc_above (fun _ => Path.zeroed)
             example_entries first m).
    + exact malloc_above_apart.
    + intros r. reflexivity.
    + exact E.
  - vm_compute in E. discriminate E.
Defined.
